(** * Parcel ingestion: geometry cleaning and batched upsert

    A shallow embedding of [DatabaseManager]
    (tile_processing/geojson_to_database_cycle/database_manager.py):
    coordinate validation, ring cleaning, geometry repair, 3D-to-2D
    conversion, WKB encoding, numeric parsing, the cleaning of properties
    and the batched upsert loop, and of [get_database_stats]
    (tile_processing/geojson_to_database_cycle/postgis_pipeline.py).

    Python values are modelled as data, exceptions by a [result] type,
    and the mutable locals and the database connection of
    [update_parcel_data] by explicit state passing.  The run is given
    twice: with rollbacks that succeed, and, in [Aborting], with
    rollbacks that can raise and end it.  The libraries the
    module calls (shapely, psycopg2, the [float] builtin) are interfaces:
    records of operations the functions take as parameters. *)

From Stdlib Require Import QArith.
From Stdlib Require Import Strings.Byte.
From stdpp Require Import base option list strings gmap fin_maps pretty.

Local Open Scope Q_scope.
Local Open Scope nat_scope.

(* ================================================================== *)
(** * Python values *)
(* ================================================================== *)

Module Py.

(** The exceptions that occur in the module.  Every one of them is an
    instance of Python's [Exception]. *)
Inductive exn :=
| AttributeError | TypeError | ValueError | OverflowError
| RecursionError | MemoryError | GEOSException | DatabaseError.

(** Outcome of evaluating a Python expression or function body. *)
Inductive result (A : Type) :=
| Returns (a : A)
| Raises (e : exn).
Arguments Returns {A} a.
Arguments Raises {A} e.

#[export] Instance exn_eq_dec : EqDecision exn.
Proof. solve_decision. Defined.

#[export] Instance result_ret : MRet result := @Returns.
#[export] Instance result_bind : MBind result :=
  fun A B f m => match m with Returns a => f a | Raises e => Raises e end.

(** [try: body except Exception: handler]. *)
Definition try_except {A} (body : result A) (handler : exn -> result A) : result A :=
  match body with
  | Returns a => Returns a
  | Raises e => handler e
  end.

(** [try: body except (E1, E2, ...): handler]: other exceptions propagate. *)
Definition try_except_only {A} (caught : list exn) (body : result A)
    (handler : exn -> result A) : result A :=
  match body with
  | Returns a => Returns a
  | Raises e => if bool_decide (e ∈ caught) then handler e else Raises e
  end.

(** A Python [float].  A finite double is represented by its exact
    rational value; the module only tests floats ([math.isnan],
    [math.isinf], [<], [>]) and never computes with them, and on finite
    doubles these tests agree with the tests on the rationals. *)
Inductive pyfloat :=
| NaN
| Inf (negative : bool)
| Fin (q : Q).

Definition isnan (x : pyfloat) : bool :=
  match x with NaN => true | _ => false end.

Definition isinf (x : pyfloat) : bool :=
  match x with Inf _ => true | _ => false end.

Definition Qlt_bool (x y : Q) : bool := negb (Qle_bool y x).

(** [x < y] on floats: false as soon as either side is NaN. *)
Definition flt (x y : pyfloat) : bool :=
  match x, y with
  | NaN, _ | _, NaN => false
  | Inf true, Inf true => false
  | Inf true, _ => true
  | _, Inf true => false
  | Inf false, _ => false
  | Fin _, Inf false => true
  | Fin a, Fin b => Qlt_bool a b
  end.

(** [x > y]. *)
Definition fgt (x y : pyfloat) : bool := flt y x.

(** [x == y] on floats. *)
Definition feq (x y : pyfloat) : bool :=
  match x, y with
  | Inf a, Inf b => bool_decide (a = b)
  | Fin a, Fin b => Qeq_bool a b
  | _, _ => false
  end.

(** An integer literal used as a float operand. *)
Definition of_int (z : Z) : pyfloat := Fin (inject_Z z).

(** The integer nearest to [z] that a double represents: [z] itself up to
    53 significant bits, beyond that [z] rounded to 53 significant bits,
    a tie going to the even significand. *)
Definition round_to_double (z : Z) : Z :=
  let a := Z.abs z in
  let bits := (Z.log2 a + 1)%Z in
  if (bits <=? 53)%Z then z
  else
    let shift := (bits - 53)%Z in
    let q := Z.shiftr a shift in
    let r := Z.land a (Z.ones shift) in
    let half := Z.shiftl 1 (shift - 1) in
    let q := if (half <? r)%Z || ((r =? half)%Z && Z.odd q)
             then (q + 1)%Z else q in
    (Z.sgn z * Z.shiftl q shift)%Z.

(** The scalar values a feature property can hold. *)
Inductive pyval :=
| PNone
| PStr (s : string)
| PFloat (x : pyfloat)
| PInt (z : Z).

(** [a == b] between a property value and a [None] or string literal. *)
Definition py_eq (a b : pyval) : bool :=
  match a, b with
  | PNone, PNone => true
  | PStr s, PStr t => bool_decide (s = t)
  | PFloat x, PFloat y => feq x y
  | PInt x, PInt y => bool_decide (x = y)
  | PInt x, PFloat y | PFloat y, PInt x => feq (of_int x) y
  | _, _ => false
  end.

(** [val in [x1, x2, ...]]. *)
Definition py_in (val : pyval) (items : list pyval) : bool :=
  existsb (py_eq val) items.

(** Truthiness of a property value ([if county_name:]). *)
Definition truthy (v : pyval) : bool :=
  match v with
  | PNone => false
  | PStr s => negb (bool_decide (s = ""%string))
  | PFloat x => negb (feq x (of_int 0))
  | PInt z => negb (bool_decide (z = 0%Z))
  end.

(** [str(n)] for a non-negative integer. *)
Definition str (n : nat) : string := pretty n.

#[export] Instance Q_eq_dec : EqDecision Q.
Proof. solve_decision. Defined.
#[export] Instance pyfloat_eq_dec : EqDecision pyfloat.
Proof. solve_decision. Defined.
#[export] Instance pyval_eq_dec : EqDecision pyval.
Proof. solve_decision. Defined.

#[export] Instance Q_countable : Countable Q :=
  inj_countable' (fun q => (Qnum q, Qden q)) (fun p => Qmake p.1 p.2)
    (fun q => match q with Qmake _ _ => eq_refl end).

#[export] Instance pyfloat_countable : Countable pyfloat :=
  inj_countable'
    (fun x => match x with
              | NaN => inl tt
              | Inf b => inr (inl b)
              | Fin q => inr (inr q)
              end)
    (fun s => match s with
              | inl _ => NaN
              | inr (inl b) => Inf b
              | inr (inr q) => Fin q
              end)
    (fun x => match x with NaN => eq_refl | Inf _ => eq_refl | Fin _ => eq_refl end).

#[export] Instance pyval_countable : Countable pyval :=
  inj_countable'
    (fun v => match v with
              | PNone => inl tt
              | PStr s => inr (inl s)
              | PFloat x => inr (inr (inl x))
              | PInt z => inr (inr (inr z))
              end)
    (fun s => match s with
              | inl _ => PNone
              | inr (inl s) => PStr s
              | inr (inr (inl x)) => PFloat x
              | inr (inr (inr z)) => PInt z
              end)
    (fun v => match v with
              | PNone => eq_refl | PStr _ => eq_refl
              | PFloat _ => eq_refl | PInt _ => eq_refl
              end).

End Py.
Export Py.

(* ================================================================== *)
(** * Geometries *)
(* ================================================================== *)

(** A coordinate tuple as shapely's [coords] yields it: two ordinates
    (lon, lat) or three (lon, lat, z). *)
Abbreviation coord := (list pyfloat).
Abbreviation ring := (list coord).

Record polygon := mk_polygon {
  exterior : ring;
  interiors : list ring
}.

#[warnings="-register-all"]
Inductive geometry :=
| Point (c : coord)
| MultiPoint (cs : list coord)
| LineString (cs : list coord)
| LinearRing (cs : ring)
| MultiLineString (lines : list (list coord))
| Polygon (p : polygon)
| MultiPolygon (geoms : list polygon)
| GeometryCollection (members : list geometry).

Definition geom_type (g : geometry) : string :=
  match g with
  | Point _ => "Point"
  | MultiPoint _ => "MultiPoint"
  | LineString _ => "LineString"
  | LinearRing _ => "LinearRing"
  | MultiLineString _ => "MultiLineString"
  | Polygon _ => "Polygon"
  | MultiPolygon _ => "MultiPolygon"
  | GeometryCollection _ => "GeometryCollection"
  end.

(** [geometry.is_empty]: the geometry has no point. *)
Fixpoint is_empty (g : geometry) : bool :=
  match g with
  | Point c => bool_decide (c = [])
  | MultiPoint cs | LineString cs | LinearRing cs => bool_decide (cs = [])
  | MultiLineString ls => forallb (fun l => bool_decide (l = [])) ls
  | Polygon p => bool_decide (exterior p = [])
  | MultiPolygon ps => forallb (fun p => bool_decide (exterior p = [])) ps
  | GeometryCollection gs => forallb is_empty gs
  end.

(** Two coordinate tuples are equal when they have the same ordinates. *)
Fixpoint coord_eqb (a b : coord) : bool :=
  match a, b with
  | [], [] => true
  | x :: a', y :: b' => feq x y && coord_eqb a' b'
  | _, _ => false
  end.

Definition ring_closed (cs : ring) : bool :=
  match cs, last cs with
  | c :: _, Some d => coord_eqb c d
  | _, _ => true
  end.

(** [shapely.LinearRing(coords)]: an empty sequence gives the empty ring,
    one or two points raise, three points or an open sequence are closed
    by repeating the first point. *)
Definition shapely_LinearRing (cs : ring) : result ring :=
  match cs with
  | [] => Returns []
  | c :: _ =>
      if length cs <? 3 then Raises ValueError
      else if (length cs =? 3) || negb (ring_closed cs) then Returns (cs ++ [c])
      else Returns cs
  end.

(** [shapely.geometry.Polygon(shell, holes)]. *)
Definition shapely_Polygon (shell : ring) (holes : list ring) : result polygon :=
  e ← shapely_LinearRing shell;
  hs ← mapM shapely_LinearRing holes;
  Returns (mk_polygon e hs).

(** The operations of shapely whose results depend on computational
    geometry.  They are an interface of the model. *)
Record Shapely := {
  (** [g.is_valid] *)
  is_valid : geometry -> bool;
  (** [g.area] *)
  area : geometry -> pyfloat;
  (** [shapely.validation.make_valid(g)] *)
  make_valid : geometry -> result geometry;
  (** [g.simplify(tolerance)] *)
  simplify : geometry -> Q -> result geometry;
  (** [g.buffer(distance)] *)
  buffer : geometry -> Q -> result geometry;
  (** [shapely.wkb.dumps(g)] *)
  wkb_dumps : geometry -> result (list byte);
  (** [shape(json.loads(json.dumps(mapping(g))))] *)
  geojson_roundtrip : geometry -> result geometry;
  (** [shapely.wkt.loads(g.wkt.replace(' Z', '').replace(' z', ''))] *)
  wkt_reload : geometry -> result geometry
}.

(* ================================================================== *)
(** * Coordinate validation and ring cleaning *)
(* ================================================================== *)

(** The line [clean_coords] prints when it dropped something:
    "Dropped {dropped}/{original_len} coords from {label}". *)
Record drop_notice := Dropped {
  dropped_count : nat;
  original_len : nat;
  ring_label : string
}.

(** [is_valid_coord], local to [_validate_and_clean_coordinates]. *)
Definition is_valid_coord (coord : coord) : bool :=
  if length coord <? 2 then false
  else
    match coord with
    | lon :: lat :: _ =>
        if isnan lon || isnan lat || isinf lon || isinf lat then false
        else if flt lon (of_int (-180)) || fgt lon (of_int 180)
                || flt lat (of_int (-90)) || fgt lat (of_int 90) then false
        else true
    | _ => false
    end.

(** The [for coord in coords] loop of [clean_coords], started with the
    values of [cleaned] and [dropped] so far. *)
Fixpoint clean_coords_loop (coords : ring) (cleaned : ring) (dropped : nat)
    : ring * nat :=
  match coords with
  | [] => (cleaned, dropped)
  | coord :: rest =>
      if is_valid_coord coord then
        clean_coords_loop rest
          (cleaned ++ [match coord with
                       | lon :: lat :: _ :: _ => [lon; lat]
                       | _ => coord
                       end])
          dropped
      else clean_coords_loop rest cleaned (S dropped)
  end.

(** [clean_coords(coords, label)]: the returned list, paired with the
    line it prints, if any. *)
Definition clean_coords (coords : ring) (label : string)
    : ring * option drop_notice :=
  let original_len := length coords in
  let '(cleaned, dropped) := clean_coords_loop coords [] 0 in
  (cleaned,
   if 0 <? dropped then Some (Dropped dropped original_len label) else None).

Section Geometry.
Context (sh : Shapely).

(** The [for i, ring in enumerate(geometry.interiors)] loop. *)
Fixpoint clean_interiors (i : nat) (rings : list ring) (interiors : list ring)
    : list ring :=
  match rings with
  | [] => interiors
  | ring :: rest =>
      let interior := (clean_coords ring ("interior ring " +:+ str i)).1 in
      if 4 <=? length interior
      then clean_interiors (S i) rest (interiors ++ [interior])
      else clean_interiors (S i) rest interiors
  end.

(** [_validate_and_clean_coordinates] called on a Polygon: the Polygon
    branch inside the function's [try ... except Exception: return None]. *)
Definition clean_polygon (p : polygon) : result (option polygon) :=
  try_except
    (let exterior := (clean_coords (exterior p) "exterior ring").1 in
     if length exterior <? 4 then Returns None
     else
       let interiors := clean_interiors 0 (interiors p) [] in
       poly ← shapely_Polygon exterior interiors;
       if negb (is_valid sh (Polygon poly)) then Returns None
       else Returns (Some poly))
    (fun _ => Returns None).

(** The [for i, part in enumerate(geometry.geoms)] loop of the
    MultiPolygon branch; each part goes through the function itself. *)
Fixpoint clean_parts (parts : list polygon) (valid_parts : list polygon)
    : result (list polygon) :=
  match parts with
  | [] => Returns valid_parts
  | part :: rest =>
      cleaned_part ← clean_polygon part;
      match cleaned_part with
      | Some c =>
          if is_valid sh (Polygon c) then clean_parts rest (valid_parts ++ [c])
          else clean_parts rest valid_parts
      | None => clean_parts rest valid_parts
      end
  end.

Definition _validate_and_clean_coordinates (g : geometry)
    : result (option geometry) :=
  match g with
  | Polygon p =>
      poly ← clean_polygon p;
      match poly with
      | Some poly => Returns (Some (Polygon poly))
      | None => Returns None
      end
  | MultiPolygon parts =>
      try_except
        (valid_parts ← clean_parts parts [];
         match valid_parts with
         | _ :: _ => Returns (Some (MultiPolygon valid_parts))
         | [] => Returns None
         end)
        (fun _ => Returns None)
  | _ => try_except (Returns (Some g)) (fun _ => Returns None)
  end.

(** [count_coords]. *)
Definition count_coords (g : geometry) : nat :=
  match g with
  | Polygon p => length (exterior p)
  | MultiPolygon ps => sum_list ((fun p => length (exterior p)) <$> ps)
  | _ => 0
  end.

(* ================================================================== *)
(** * Geometry repair *)
(* ================================================================== *)

(** The literal [1e-10]: the double nearest to it, 7737125245533627 / 2^86. *)
Definition near_zero : pyfloat :=
  Fin (7737125245533627 # 77371252455336267181195264).

(** The literal [0.000001]: the double nearest to it,
    4722366482869645 / 2^72. *)
Definition simplify_tolerance : Q :=
  4722366482869645 # 4722366482869645213696.

(** The [for part in repaired.geoms] loop of [_repair_geometry]. *)
Fixpoint repair_parts (parts : list polygon) (valid_parts : list polygon)
    : list polygon :=
  match parts with
  | [] => valid_parts
  | part :: rest =>
      if is_valid sh (Polygon part) && fgt (area sh (Polygon part)) near_zero
      then repair_parts rest (valid_parts ++ [part])
      else repair_parts rest valid_parts
  end.

Definition _repair_geometry (g : geometry) : result (option geometry) :=
  try_except
    (repaired ← make_valid sh g;
     if negb (is_valid sh repaired) then
       match repaired with
       | Polygon _ =>
           if flt (area sh repaired) near_zero then Returns None
           else
             simplified ← simplify sh repaired simplify_tolerance;
             buffered ← buffer sh simplified 0;
             if is_valid sh buffered && fgt (area sh buffered) (of_int 0)
             then Returns (Some buffered)
             else Returns None
       | MultiPolygon parts =>
           let valid_parts := repair_parts parts [] in
           match valid_parts with
           | _ :: _ => Returns (Some (MultiPolygon valid_parts))
           | [] => Returns None
           end
       | _ => Returns None
       end
     else Returns (Some repaired))
    (fun _ => Returns None).

(* ================================================================== *)
(** * 3D to 2D conversion *)
(* ================================================================== *)

(** [is_3d(coords)]: some coordinate has more than two ordinates. *)
Fixpoint is_3d (coords : list coord) : bool :=
  match coords with
  | [] => false
  | coord :: rest => if 2 <? length coord then true else is_3d rest
  end.

(** [strip_z(coords)]: [[(x, y) for x, y, *_ in coords]]; unpacking a
    tuple of fewer than two ordinates raises. *)
Definition strip_z (coords : list coord) : result (list coord) :=
  mapM (fun c => match c with
                 | x :: y :: _ => Returns [x; y]
                 | _ => Raises ValueError
                 end) coords.

(** Exterior and interiors of one polygon stripped and reassembled. *)
Definition strip_polygon (p : polygon) : result (list coord * polygon) :=
  exterior ← strip_z (exterior p);
  interiors ← mapM strip_z (interiors p);
  poly ← shapely_Polygon exterior interiors;
  Returns (exterior, poly).

(** The [for p in geometry.geoms] loop of the MultiPolygon branch. *)
Fixpoint convert_parts (parts : list polygon) (valid_polys : list polygon)
    : result (list polygon) :=
  match parts with
  | [] => Returns valid_polys
  | p :: rest =>
      '(exterior, poly) ← strip_polygon p;
      if is_valid sh (Polygon poly) && (4 <=? length exterior)
      then convert_parts rest (valid_polys ++ [poly])
      else convert_parts rest valid_polys
  end.

Definition _convert_3d_to_2d (g : geometry) : result (option geometry) :=
  try_except
    (match g with
     | Polygon p =>
         if negb (is_3d (exterior p)) then Returns (Some g)
         else '(_, poly) ← strip_polygon p; Returns (Some (Polygon poly))
     | MultiPolygon parts =>
         if forallb (fun p => negb (is_3d (exterior p))) parts then Returns (Some g)
         else
           valid_polys ← convert_parts parts [];
           match valid_polys with
           | _ :: _ => Returns (Some (MultiPolygon valid_polys))
           | [] => Returns None
           end
     | _ => g' ← geojson_roundtrip sh g; Returns (Some g')
     end)
    (fun _ =>
       try_except (g' ← wkt_reload sh g; Returns (Some g')) (fun _ => Returns None)).

(* ================================================================== *)
(** * WKB encoding *)
(* ================================================================== *)

(** The repair step shared by both validity checks of
    [safe_geometry_to_wkb]: the repaired geometry when there is a valid
    one, [None] where the function returns [None]. *)
Definition repair_if_invalid (g : geometry) : result (option geometry) :=
  if negb (is_valid sh g) then
    repaired ← _repair_geometry g;
    match repaired with
    | Some r => if is_valid sh r then Returns (Some r) else Returns None
    | None => Returns None
    end
  else Returns (Some g).

Definition safe_geometry_to_wkb (geometry : option geometry) (parcel_id : pyval)
    : result (option (list byte)) :=
  (* debugging block for one parcel, ahead of the None check: it reads
     geometry.geom_type, .area, .bounds and counts the coordinates *)
  _ ← (if py_eq parcel_id (PStr "teton_county_wy_000001") then
         match geometry with
         | None => Raises AttributeError
         | Some g => let _ := count_coords g in Returns tt
         end
       else Returns tt);
  match geometry with
  | None => Returns None
  | Some geometry =>
      try_except
        (if is_empty geometry then Returns None
         else
           repaired ← repair_if_invalid geometry;
           match repaired with
           | None => Returns None
           | Some geometry =>
               cleaned_geometry ← _validate_and_clean_coordinates geometry;
               match cleaned_geometry with
               | None => Returns None
               | Some geometry =>
                   geom_2d ← _convert_3d_to_2d geometry;
                   match geom_2d with
                   | None => Returns None
                   | Some geom_2d =>
                       repaired_2d ← repair_if_invalid geom_2d;
                       match repaired_2d with
                       | None => Returns None
                       | Some geom_2d =>
                           try_except_only
                             [RecursionError; MemoryError; ValueError]
                             (wkb ← wkb_dumps sh geom_2d; Returns (Some wkb))
                             (fun _ => Returns None)
                       end
                   end
               end
           end)
        (fun _ => Returns None)
  end.

End Geometry.

(* ================================================================== *)
(** * Numeric field parsing *)
(* ================================================================== *)

Section Numeric.
(** [float(s)] for a string [s]: the parsed number, or [ValueError]. *)
Context (float_of_str : string -> result pyfloat).

(** [float(val)].  An integer is rounded to the nearest double; one that
    rounds beyond the largest double raises [OverflowError]. *)
Definition py_float (val : pyval) : result pyfloat :=
  match val with
  | PNone => Raises TypeError
  | PStr s => float_of_str s
  | PFloat x => Returns x
  | PInt z =>
      if (Z.abs z <? 2 ^ 1024 - 2 ^ 970)%Z
      then Returns (of_int (round_to_double z))
      else Raises OverflowError
  end.

Definition _parse_numeric (val : pyval) : result (option pyfloat) :=
  try_except
    (if py_in val [PNone; PStr ""; PStr "null"; PStr "nan"] then Returns None
     else x ← py_float val; Returns (Some x))
    (fun _ => Returns None).

End Numeric.

(* ================================================================== *)
(** * The persisted table and the connection *)
(* ================================================================== *)

(** A stored value: an adapted Python scalar ([None] is NULL), a boolean
    literal of the statement, or [ST_GeomFromWKB(wkb, srid)]. *)
Inductive cell :=
| CVal (v : pyval)
| CBool (b : bool)
| CGeom (wkb : list byte) (srid : Z).

(** A row maps column names to values; the table is the list of its rows
    in insertion order.  The columns [id], [created_at] and [updated_at]
    (a serial and two timestamps) are not modelled. *)
Abbreviation db_row := (gmap string cell).
Abbreviation table := (list db_row).

(** [WHERE global_parcel_uid = %s]: a text comparison, never true of NULL. *)
Definition where_uid (uid : pyval) (r : db_row) : bool :=
  match r !! "global_parcel_uid"%string, uid with
  | Some (CVal (PStr s)), PStr t => bool_decide (s = t)
  | _, _ => false
  end.

(** [UPDATE t SET c1 = v1, ... WHERE global_parcel_uid = uid]. *)
Definition sql_update (set : list (string * cell)) (uid : pyval) (t : table)
    : table :=
  (fun r => if where_uid uid r then list_to_map set ∪ r else r) <$> t.

(** [INSERT INTO t (c1, ...) VALUES (v1, ...)]. *)
Definition sql_insert (values : list (string * cell)) (t : table) : table :=
  t ++ [list_to_map values].

(** A psycopg2 connection with [autocommit = False]: the table as of the
    last commit and the table as the open transaction sees it. *)
Record connection := mk_connection {
  committed : table;
  working : table
}.

(** [conn.commit()] when it succeeds. *)
Definition commit (c : connection) : connection :=
  mk_connection (working c) (working c).

(** [conn.rollback()] when it succeeds.  The two calls of the loop are
    outside any [try]: [Aborting] below has the run in which they can
    raise. *)
Definition rollback (c : connection) : connection :=
  mk_connection (committed c) (committed c).

(** The seven [cursor.execute] calls of the loop body. *)
Inductive call_site :=
| SelectExisting
| UpdateSpatial | UpdateFallback | UpdatePlain
| InsertSpatial | InsertFallback | InsertPlain.

(** Which database calls raise: [execute_raises idx site] for the call at
    [site] while row [idx] is processed, [commit_raises n] for the commit
    that ends batch [n]. *)
Record Database := {
  execute_raises : nat -> call_site -> bool;
  commit_raises : nat -> bool
}.

(* ================================================================== *)
(** * update_parcel_data *)
(* ================================================================== *)

(** One row of the GeoDataFrame: its property columns and its geometry. *)
Record feature := mk_feature {
  properties : gmap string pyval;
  geometry_of : option geometry
}.

(** [row.get(key, default)]. *)
Definition row_get (row : feature) (key : string) (default : pyval) : pyval :=
  match properties row !! key with
  | Some v => v
  | None => default
  end.

(** [gdf.columns]. *)
Definition columns (gdf : list feature) : gset string :=
  ⋃ ((fun row => dom (properties row)) <$> gdf).

(** [gdf['county'] = county_name]. *)
Definition set_county (county_name : pyval) (gdf : list feature) : list feature :=
  (fun row => mk_feature (<["county"%string := county_name]> (properties row))
                         (geometry_of row)) <$> gdf.

(** The integer counters of the function. *)
Inductive counter :=
| successful_inserts | skipped_rows | spatial_count | non_spatial_count
| geometry_conversion_failures | null_geometries | empty_geometries.

(** Its identifier sets. *)
Inductive idset :=
| processed_parcel_ids | successful_parcel_ids
| failed_parcel_ids | duplicate_parcel_ids.

#[export] Instance counter_eq_dec : EqDecision counter.
Proof. solve_decision. Defined.
#[export] Instance idset_eq_dec : EqDecision idset.
Proof. solve_decision. Defined.

(** The mutable state of one run. *)
Record locals := mk_locals {
  conn : connection;
  counters : counter -> nat;
  idsets : idset -> gset pyval;
  parcel_id_count : gmap pyval nat
}.

Definition set_conn (c : connection) (st : locals) : locals :=
  mk_locals c (counters st) (idsets st) (parcel_id_count st).

(** [c += 1]. *)
Definition incr (c : counter) (st : locals) : locals :=
  mk_locals (conn st)
    (fun c' => if decide (c = c') then S (counters st c') else counters st c')
    (idsets st) (parcel_id_count st).

(** [s.add(x)]. *)
Definition add_id (s : idset) (x : pyval) (st : locals) : locals :=
  mk_locals (conn st) (counters st)
    (fun s' => if decide (s = s') then {[x]} ∪ idsets st s' else idsets st s')
    (parcel_id_count st).

Definition set_parcel_id_count (m : gmap pyval nat) (st : locals) : locals :=
  mk_locals (conn st) (counters st) (idsets st) m.

(** A statement sequence of the loop body: it runs on the state and
    either completes or raises, leaving the state as it was at the raise. *)
Definition M (A : Type) : Type := locals -> result A * locals.

Definition ret {A} (a : A) : M A := fun st => (Returns a, st).

#[export] Instance M_ret : MRet M := @ret.
#[export] Instance M_bind : MBind M :=
  fun A B k m st =>
    match m st with
    | (Returns a, st') => k a st'
    | (Raises e, st') => (Raises e, st')
    end.

(** A statement that only changes the state. *)
Definition modify (f : locals -> locals) : M unit :=
  fun st => (Returns tt, f st).

(** A call into pure code that may raise. *)
Definition lift {A} (r : result A) : M A := fun st => (r, st).

(** [try: body except Exception: handler]. *)
Definition try_stmt {A} (body : M A) (handler : M A) : M A :=
  fun st => match body st with
            | (Returns a, st') => (Returns a, st')
            | (Raises _, st') => handler st'
            end.

Section Upsert.
Context (sh : Shapely) (float_of_str : string -> result pyfloat) (db : Database).
Context (county_name : pyval).

Local Open Scope string_scope.

(** The values the loop body reads from the row. *)
Record fields := mk_fields {
  global_parcel_uid : pyval;
  parcel_id : pyval;
  owner_name : pyval;
  address : pyval;
  acreage : option pyfloat;
  property_value : option pyfloat;
  land_type : pyval;
  deed_reference : pyval;
  owner_city : pyval;
  owner_state : pyval;
  owner_zip : pyval;
  property_details_link : pyval;
  tax_details_link : pyval;
  clerk_records_link : pyval;
  mailing_address : pyval;
  county : pyval;
  state : pyval
}.

Definition read_fields (idx : nat) (row : feature) : result fields :=
  acreage ← _parse_numeric float_of_str (row_get row "acreage" (PStr ""));
  property_value ←
    _parse_numeric float_of_str (row_get row "property_value" (PStr ""));
  Returns {|
    global_parcel_uid := row_get row "global_parcel_uid" (PStr "");
    parcel_id := row_get row "county_parcel_id_num" (PStr (str idx));
    owner_name := row_get row "owner_name" (PStr "");
    address := row_get row "physical_address" (PStr "");
    acreage := acreage;
    property_value := property_value;
    land_type := row_get row "land_type/description" (PStr "");
    deed_reference := row_get row "deed_reference" (PStr "");
    owner_city := row_get row "owner_city" (PStr "");
    owner_state := row_get row "owner_state" (PStr "");
    owner_zip := row_get row "owner_zip" (PStr "");
    property_details_link := row_get row "property_details_link" (PStr "");
    tax_details_link := row_get row "tax_details_link" (PStr "");
    clerk_records_link := row_get row "clerk_records_link" (PStr "");
    mailing_address := row_get row "mailing_address" (PStr "");
    county := row_get row "county" county_name;
    state := row_get row "state" (PStr "")
  |}.

(** A parsed number as a statement parameter. *)
Definition numeric (x : option pyfloat) : cell :=
  match x with
  | Some x => CVal (PFloat x)
  | None => CVal PNone
  end.

(** The attribute columns every UPDATE sets and every INSERT fills, with
    the parameters bound to them. *)
Definition attribute_columns (f : fields) : list (string * cell) :=
  [ ("owner_name", CVal (owner_name f));
    ("physical_address", CVal (address f));
    ("mailing_address", CVal (mailing_address f));
    ("acreage", numeric (acreage f));
    ("property_value", numeric (property_value f));
    ("land_type_description", CVal (land_type f));
    ("deed_reference", CVal (deed_reference f));
    ("owner_city", CVal (owner_city f));
    ("owner_state", CVal (owner_state f));
    ("owner_zip", CVal (owner_zip f));
    ("property_details_link", CVal (property_details_link f));
    ("tax_details_link", CVal (tax_details_link f));
    ("clerk_records_link", CVal (clerk_records_link f));
    ("address", CVal (address f));
    ("county", CVal (county f));
    ("state", CVal (state f)) ].

(** [geometry = ST_GeomFromWKB(%s, 4326), has_spatial_data = TRUE]. *)
Definition spatial_columns (wkb : list byte) : list (string * cell) :=
  [ ("geometry", CGeom wkb 4326); ("has_spatial_data", CBool true) ].

(** [geometry = NULL, has_spatial_data = FALSE]. *)
Definition non_spatial_columns : list (string * cell) :=
  [ ("geometry", CVal PNone); ("has_spatial_data", CBool false) ].

(** The SET list of an UPDATE. *)
Definition update_set (f : fields) (geom : list (string * cell))
    : list (string * cell) :=
  attribute_columns f ++ geom.

(** The column list of an INSERT with its VALUES. *)
Definition insert_values (f : fields) (geom : list (string * cell))
    : list (string * cell) :=
  [ ("global_parcel_uid", CVal (global_parcel_uid f));
    ("county_parcel_id_num", CVal (parcel_id f)) ]
  ++ attribute_columns f ++ geom.

(** [cursor.execute(sql, params)] at a call site, for a statement that
    changes the table. *)
Definition execute (idx : nat) (site : call_site) (stmt : table -> table)
    : M unit :=
  fun st =>
    if execute_raises db idx site then (Raises DatabaseError, st)
    else (Returns tt,
          set_conn (mk_connection (committed (conn st))
                                  (stmt (working (conn st)))) st).

(** [cursor.execute("SELECT id FROM t WHERE global_parcel_uid = %s")]
    with the later [cursor.fetchone()]: is there a row? *)
Definition select_existing (idx : nat) (uid : pyval) : M bool :=
  fun st =>
    if execute_raises db idx SelectExisting then (Raises DatabaseError, st)
    else (Returns (existsb (where_uid uid) (working (conn st))), st).

(** "Track processed parcel IDs". *)
Definition track_parcel_id (uid : pyval) : M unit :=
  match uid with
  | PNone => ret tt
  | _ =>
      modify (add_id processed_parcel_ids uid);;
      modify (fun st =>
        match parcel_id_count st !! uid with
        | Some n =>
            add_id duplicate_parcel_ids uid
              (set_parcel_id_count (<[uid := S n]> (parcel_id_count st)) st)
        | None => set_parcel_id_count (<[uid := 1]> (parcel_id_count st)) st
        end)
  end.

(** The geometry of the row encoded, with the counters kept on the way. *)
Definition resolve_geometry (row : feature) (uid : pyval)
    : M (option (list byte)) :=
  match geometry_of row with
  | Some g =>
      if negb (is_empty g) then
        wkb_geometry ← lift (safe_geometry_to_wkb sh (Some g) uid);
        match wkb_geometry with
        | Some wkb => ret (Some wkb)
        | None => modify (incr geometry_conversion_failures);; ret None
        end
      else modify (incr empty_geometries);; ret None
  | None => modify (incr null_geometries);; ret None
  end.

(** The body of the [try] in the row loop.  ([properties_json], built
    from the cleaned properties, is not used afterwards.) *)
Definition process_row (idx : nat) (row : feature) : M unit :=
  f ← lift (read_fields idx row);
  let uid := global_parcel_uid f in
  track_parcel_id uid;;
  found ← select_existing idx uid;
  wkb_geometry ← resolve_geometry row uid;
  (if found : bool then
     match wkb_geometry with
     | Some wkb =>
         try_stmt
           (execute idx UpdateSpatial
              (sql_update (update_set f (spatial_columns wkb)) uid);;
            modify (incr spatial_count);;
            modify (add_id successful_parcel_ids uid))
           (modify (incr geometry_conversion_failures);;
            execute idx UpdateFallback
              (sql_update (update_set f non_spatial_columns) uid);;
            modify (incr non_spatial_count);;
            modify (add_id successful_parcel_ids uid))
     | None =>
         execute idx UpdatePlain
           (sql_update (update_set f non_spatial_columns) uid);;
         modify (incr non_spatial_count);;
         modify (add_id successful_parcel_ids uid)
     end
   else
     match wkb_geometry with
     | Some wkb =>
         try_stmt
           (execute idx InsertSpatial
              (sql_insert (insert_values f (spatial_columns wkb)));;
            modify (incr spatial_count);;
            modify (add_id successful_parcel_ids uid))
           (modify (incr geometry_conversion_failures);;
            modify (add_id failed_parcel_ids uid);;
            execute idx InsertFallback
              (sql_insert (insert_values f non_spatial_columns));;
            modify (incr non_spatial_count);;
            modify (add_id successful_parcel_ids uid))
     | None =>
         execute idx InsertPlain
           (sql_insert (insert_values f non_spatial_columns));;
         modify (incr non_spatial_count);;
         modify (add_id successful_parcel_ids uid)
     end);;
  modify (incr successful_inserts).

(** One iteration of [for idx, row in batch_df.iterrows()]: the [try]
    and its [except Exception] handler. *)
Definition row_step (idx : nat) (row : feature) (st : locals) : locals :=
  match process_row idx row st with
  | (Returns _, st') => st'
  | (Raises _, st') =>
      let st' :=
        add_id failed_parcel_ids (row_get row "global_parcel_uid" (PStr "")) st' in
      let st' := incr skipped_rows st' in
      set_conn (rollback (conn st')) st'
  end.

(** The rows of a batch, [idx] being the index label of the first. *)
Fixpoint batch_rows (idx : nat) (rows : list feature) (st : locals) : locals :=
  match rows with
  | [] => st
  | row :: rest => batch_rows (S idx) rest (row_step idx row st)
  end.

(** "Commit after each batch". *)
Definition commit_batch (batch_no : nat) (st : locals) : locals :=
  if commit_raises db batch_no then set_conn (rollback (conn st)) st
  else set_conn (commit (conn st)) st.

Definition batch_size : nat := 1000.

(** [range(0, total_rows, batch_size)]. *)
Definition batch_starts (total_rows : nat) : list nat :=
  (fun k => k * batch_size) <$> seq 0 ((total_rows + batch_size - 1) / batch_size).

(** One iteration of the batch loop. *)
Definition batch_step (gdf : list feature) (st : locals) (batch_start : nat)
    : locals :=
  let total_rows := length gdf in
  let batch_end := (batch_start + batch_size) `min` total_rows in
  let batch_df := take (batch_end - batch_start) (drop batch_start gdf) in
  commit_batch (batch_start / batch_size) (batch_rows batch_start batch_df st).

Definition initial_locals (t : table) : locals :=
  mk_locals (mk_connection t t) (fun _ => 0) (fun _ => ∅) ∅.

(** [update_parcel_data] run on the features read from the file (already
    in EPSG:4326) against the stored table [t]: the state when the
    connection is closed. *)
Definition update_parcel_data (gdf : list feature) (t : table) : locals :=
  let gdf :=
    if bool_decide ("county" ∉ columns gdf) && truthy county_name
    then set_county county_name gdf else gdf in
  foldl (batch_step gdf) (initial_locals t) (batch_starts (length gdf)).

End Upsert.

(* ================================================================== *)
(** * Notions used in the statements *)
(* ================================================================== *)

(** A float that is NaN or infinite. *)
Definition non_finite (x : pyfloat) : Prop :=
  x = NaN \/ exists negative, x = Inf negative.

(** A finite float lying outside the interval [lo, hi]. *)
Definition lies_outside (lo hi : Z) (x : pyfloat) : Prop :=
  exists q, x = Fin q /\ (q < inject_Z lo \/ inject_Z hi < q)%Q.

(** What [clean_coords] appends for a valid coordinate: the coordinate
    itself, cut to (lon, lat) when it has more than two ordinates. *)
Definition lon_lat (c : coord) : coord :=
  match c with
  | lon :: lat :: _ :: _ => [lon; lat]
  | _ => c
  end.

(** A ring as [shapely_LinearRing] returns it when it has four points or
    more: closed by its first point when it was open. *)
Definition closed_ring (cs : ring) : ring :=
  match cs with
  | c :: _ => if ring_closed cs then cs else cs ++ [c]
  | [] => []
  end.

(** The coordinates of a geometry made of polygons. *)
Definition polygon_coords (p : polygon) : list coord :=
  exterior p ++ concat (interiors p).

Definition polygonal_coords (g : geometry) : list coord :=
  match g with
  | Polygon p => polygon_coords p
  | MultiPolygon ps => concat (polygon_coords <$> ps)
  | _ => []
  end.

(** A ring of at least four points with at least two ordinates each, as
    every ring of a non-empty shapely Polygon is. *)
Definition well_formed_ring (r : ring) : Prop :=
  4 <= length r /\ Forall (fun c : coord => 2 <= length c) r.

Definition well_formed (p : polygon) : Prop :=
  well_formed_ring (exterior p) /\ Forall well_formed_ring (interiors p).

(** A ring and a polygon with every coordinate cut to (lon, lat). *)
Definition flatten_ring (r : ring) : ring := (fun c : coord => take 2 c) <$> r.

Definition flatten_polygon (p : polygon) : polygon :=
  mk_polygon (closed_ring (flatten_ring (exterior p)))
             ((fun r => closed_ring (flatten_ring r)) <$> interiors p).

(** A database on which no call raises. *)
Definition reliable : Database :=
  {| execute_raises := fun _ _ => false; commit_raises := fun _ => false |}.

(* ================================================================== *)
(** * Example data *)
(* ================================================================== *)

Module Examples.
Local Open Scope string_scope.

Definition pt (x y : Z) : coord := [of_int x; of_int y].
Definition pt3 (x y z : Z) : coord := [of_int x; of_int y; of_int z].

(** The polygon of shapely's documentation of [make_valid]:
    [Polygon([(0, 0), (1, 1), (1, 2), (1, 1), (0, 0)])] is invalid, has
    zero area, and [make_valid] turns it into
    [MULTILINESTRING ((0 0, 1 1), (1 1, 1 2))]. *)
Definition collapsed : polygon :=
  mk_polygon [pt 0 0; pt 1 1; pt 1 2; pt 1 1; pt 0 0] [].
Definition collapsed_lines : geometry :=
  MultiLineString [[pt 0 0; pt 1 1]; [pt 1 1; pt 1 2]].

(** A bow tie, whose edges (0 0, 1 1) and (1 0, 0 1) cross: invalid. *)
Definition bowtie : polygon :=
  mk_polygon [pt 0 0; pt 1 1; pt 1 0; pt 0 1; pt 0 0] [].
Definition bowtie_3d : polygon :=
  mk_polygon [pt3 0 0 7; pt3 1 1 7; pt3 1 0 7; pt3 0 1 7; pt3 0 0 7] [].

(** A square with a square hole, in 2D and with a Z ordinate. *)
Definition square : polygon :=
  mk_polygon [pt 0 0; pt 4 0; pt 4 4; pt 0 4; pt 0 0]
             [[pt 1 1; pt 1 2; pt 2 2; pt 2 1; pt 1 1]].
Definition square_3d : polygon :=
  mk_polygon [pt3 0 0 9; pt3 4 0 9; pt3 4 4 9; pt3 0 4 9; pt3 0 0 9]
             [[pt3 1 1 9; pt3 1 2 9; pt3 2 2 9; pt3 2 1 9; pt3 1 1 9]].

(** A valid, closed ring of four points, in 2D and with a Z ordinate. *)
Definition triangle : ring := [pt 0 0; pt 1 0; pt 1 1; pt 0 0].
Definition triangle_3d : ring := [pt3 0 0 5; pt3 1 0 5; pt3 1 1 5; pt3 0 0 5].

#[export] Instance polygon_eq_dec : EqDecision polygon.
Proof. solve_decision. Defined.

(** shapely's answers on the example geometries.  Off the examples the
    entries are placeholders on which no statement relies. *)
Definition invalid_examples : list polygon := [collapsed; bowtie; bowtie_3d].

Definition shapely_table : Shapely := {|
  is_valid := fun g =>
    match g with
    | Polygon p => negb (bool_decide (p ∈ invalid_examples))
    | MultiPolygon ps =>
        forallb (fun p => negb (bool_decide (p ∈ invalid_examples))) ps
    | _ => true
    end;
  area := fun g =>
    match g with
    | Polygon p =>
        if bool_decide (p = square) || bool_decide (p = square_3d)
        then of_int 15 else of_int 0
    | _ => of_int 0
    end;
  make_valid := fun g =>
    match g with
    | Polygon p => if bool_decide (p = collapsed) then Returns collapsed_lines
                   else Returns g
    | _ => Returns g
    end;
  simplify := fun g _ => Returns g;
  buffer := fun g _ => Returns g;
  wkb_dumps := fun _ => Returns [];
  geojson_roundtrip := Returns;
  wkt_reload := Returns
|}.

(** A shapely whose [make_valid] gives up on the collapsed polygon and
    hands it back. *)
Definition shapely_giving_up : Shapely := {|
  is_valid := is_valid shapely_table;
  area := area shapely_table;
  make_valid := Returns;
  simplify := simplify shapely_table;
  buffer := buffer shapely_table;
  wkb_dumps := wkb_dumps shapely_table;
  geojson_roundtrip := geojson_roundtrip shapely_table;
  wkt_reload := wkt_reload shapely_table
|}.

(** [float] on a few strings. *)
Definition float_table (s : string) : result pyfloat :=
  if bool_decide (s = "12.5") then Returns (Fin (25 # 2))
  else if bool_decide (s = "40") then Returns (of_int 40)
  else Raises ValueError.

(** Feature number [i] (counted from 1) of a file of parcels without
    geometry. *)
Definition parcel (i : nat) : feature :=
  mk_feature {[ "global_parcel_uid" := PStr ("parcel_" +:+ str i);
                "owner_name" := PStr "owner" ]} None.

Definition parcels_1500 : list feature := parcel <$> seq 1 1500.

(** The INSERT of record #750 (index label 749) raises; nothing else does. *)
Definition fault_at_750 : Database := {|
  execute_raises := fun idx site =>
    bool_decide (idx = 749) && match site with InsertPlain => true | _ => false end;
  commit_raises := fun _ => false
|}.

Definition run_1500 : locals :=
  update_parcel_data shapely_table float_table fault_at_750 PNone parcels_1500 [].

(** Is there a committed row for parcel [i]? *)
Definition persisted (st : locals) (i : nat) : bool :=
  existsb (where_uid (PStr ("parcel_" +:+ str i))) (committed (conn st)).

(** Two features with the same identifier and different county-local
    identifiers and owners. *)
Definition first_feature : feature :=
  mk_feature {[ "global_parcel_uid" := PStr "wy_001";
                "county_parcel_id_num" := PStr "A-1";
                "owner_name" := PStr "Ada" ]} None.
Definition second_feature : feature :=
  mk_feature {[ "global_parcel_uid" := PStr "wy_001";
                "county_parcel_id_num" := PStr "B-2";
                "owner_name" := PStr "Bob" ]} None.

Definition run_duplicate : locals :=
  update_parcel_data shapely_table float_table reliable PNone
    [first_feature; second_feature] [].

End Examples.

(* ================================================================== *)
(** * Further notions used in the statements *)
(* ================================================================== *)

(** A ring as the cleaning stage leaves it: at least four points, closed,
    every coordinate valid and of exactly two ordinates. *)
Definition clean_ring (r : ring) : Prop :=
  4 <= length r
  /\ ring_closed r = true
  /\ Forall (fun c : coord => is_valid_coord c = true /\ length c = 2) r.

(** A polygon all of whose rings are clean. *)
Definition clean_rings (p : polygon) : Prop :=
  clean_ring (exterior p) /\ Forall clean_ring (interiors p).

(** The cleaned form of a polygon: the valid coordinates of the exterior
    ring and of each interior ring that keeps four of them, cut to
    (lon, lat), every ring closed. *)
Definition cleaned_polygon (p : polygon) : polygon :=
  mk_polygon
    (closed_ring (lon_lat <$> List.filter is_valid_coord (exterior p)))
    (closed_ring <$>
       List.filter (fun r : ring => 4 <=? length r)
         ((fun r : ring => lon_lat <$> List.filter is_valid_coord r)
            <$> interiors p)).

(* ================================================================== *)
(** * The effect of a run on the table *)
(* ================================================================== *)

Section UpsertEffect.
Context (sh : Shapely) (float_of_str : string -> result pyfloat).
Context (county_name : pyval).
Local Open Scope string_scope.

(** [_parse_numeric] as the value it returns. *)
Definition parsed (val : pyval) : option pyfloat :=
  match _parse_numeric float_of_str val with
  | Returns x => x
  | Raises _ => None
  end.

(** The values the loop body reads from row [idx]. *)
Definition row_fields (idx : nat) (row : feature) : fields := {|
  global_parcel_uid := row_get row "global_parcel_uid" (PStr "");
  parcel_id := row_get row "county_parcel_id_num" (PStr (str idx));
  owner_name := row_get row "owner_name" (PStr "");
  address := row_get row "physical_address" (PStr "");
  acreage := parsed (row_get row "acreage" (PStr ""));
  property_value := parsed (row_get row "property_value" (PStr ""));
  land_type := row_get row "land_type/description" (PStr "");
  deed_reference := row_get row "deed_reference" (PStr "");
  owner_city := row_get row "owner_city" (PStr "");
  owner_state := row_get row "owner_state" (PStr "");
  owner_zip := row_get row "owner_zip" (PStr "");
  property_details_link := row_get row "property_details_link" (PStr "");
  tax_details_link := row_get row "tax_details_link" (PStr "");
  clerk_records_link := row_get row "clerk_records_link" (PStr "");
  mailing_address := row_get row "mailing_address" (PStr "");
  county := row_get row "county" county_name;
  state := row_get row "state" (PStr "")
|}.

(** The identifier of a row. *)
Definition row_uid (row : feature) : pyval :=
  row_get row "global_parcel_uid" (PStr "").

(** The encoded geometry of a row, if it has one that encodes. *)
Definition row_wkb (row : feature) : option (list byte) :=
  match geometry_of row with
  | Some g =>
      if is_empty g then None
      else match safe_geometry_to_wkb sh (Some g) (row_uid row) with
           | Returns (Some wkb) => Some wkb
           | _ => None
           end
  | None => None
  end.

(** The geometry columns written for a row when no database call raises. *)
Definition geometry_columns (row : feature) : list (string * cell) :=
  match row_wkb row with
  | Some wkb => spatial_columns wkb
  | None => non_spatial_columns
  end.

(** What processing one row does to the table when no database call
    raises: an UPDATE of the row with its identifier when there is one,
    an INSERT otherwise. *)
Definition upsert (idx : nat) (row : feature) (t : table) : table :=
  let f := row_fields idx row in
  if existsb (where_uid (row_uid row)) t
  then sql_update (update_set f (geometry_columns row)) (row_uid row) t
  else sql_insert (insert_values f (geometry_columns row)) t.

Fixpoint upsert_all (idx : nat) (rows : list feature) (t : table) : table :=
  match rows with
  | [] => t
  | row :: rest => upsert_all (S idx) rest (upsert idx row t)
  end.

End UpsertEffect.

(** [has_spatial_data] of a stored row as a query returns it: [True],
    [False] or [None] for NULL. *)
Definition has_spatial_data (r : db_row) : option bool :=
  match r !! "has_spatial_data"%string with
  | Some (CBool b) => Some b
  | _ => None
  end.

(** One row's effect on the open transaction, whatever the database
    does: nothing, an UPDATE that sets neither identifier column, or an
    INSERT of a row whose identifier matched no row.  Both statements set
    [has_spatial_data] to TRUE or FALSE. *)
Inductive table_step (uid : pyval) : table -> table -> Prop :=
| step_none t : table_step uid t t
| step_update set t :
    (forall c, c ∈ set.*1 ->
       c <> "global_parcel_uid"%string /\ c <> "county_parcel_id_num"%string) ->
    (exists b, has_spatial_data (list_to_map set) = Some b) ->
    table_step uid t (sql_update set uid t)
| step_insert values t :
    existsb (where_uid uid) t = false ->
    (list_to_map values : db_row) !! "global_parcel_uid"%string = Some (CVal uid) ->
    (exists b, has_spatial_data (list_to_map values) = Some b) ->
    table_step uid t (sql_insert values t).

(** The rows stored under a string identifier. *)
Definition rows_of (u : string) (t : table) : list db_row :=
  List.filter (where_uid (PStr u)) t.

(** The UNIQUE constraint on [global_parcel_uid]: at most one row for
    each string identifier. *)
Definition unique_uids (t : table) : Prop :=
  forall u, length (rows_of u t) <= 1.

(** [t'] keeps every row of [t], in place and with its two identifier
    columns unchanged, and may have further rows after them. *)
Definition extends (t t' : table) : Prop :=
  exists kept added,
    t' = kept ++ added
    /\ Forall2 (fun r r' : db_row =>
                  r' !! "global_parcel_uid"%string = r !! "global_parcel_uid"%string
                  /\ r' !! "county_parcel_id_num"%string
                     = r !! "county_parcel_id_num"%string) t kept.

(** The identifiers of the rows, [None] left out, as the tracking code
    sees them. *)
Definition tracked_uids (gdf : list feature) : list pyval :=
  List.filter (fun uid => negb (bool_decide (uid = PNone))) (row_uid <$> gdf).

(** Number of occurrences of an identifier. *)
Definition occurrences (uid : pyval) (uids : list pyval) : nat :=
  length (List.filter (fun x => bool_decide (x = uid)) uids).

(** The bookkeeping agrees with the identifiers seen so far. *)
Definition tracks (uids : list pyval) (st : locals) : Prop :=
  forall uid,
    let n := occurrences uid uids in
    parcel_id_count st !! uid = match n with 0 => None | S _ => Some n end
    /\ (uid ∈ idsets st processed_parcel_ids <-> 1 <= n)
    /\ (uid ∈ idsets st duplicate_parcel_ids <-> 2 <= n).

(** The columns an UPDATE sets. *)
Definition update_columns : list string :=
  [ "owner_name"; "physical_address"; "mailing_address"; "acreage";
    "property_value"; "land_type_description"; "deed_reference";
    "owner_city"; "owner_state"; "owner_zip"; "property_details_link";
    "tax_details_link"; "clerk_records_link"; "address"; "county"; "state";
    "geometry"; "has_spatial_data" ]%string.

(** The row holds every value of a SET list. *)
Definition stores (set : list (string * cell)) (r : db_row) : Prop :=
  forall c v, (c, v) ∈ set -> r !! c = Some v.

Section StoredRows.
Context (sh : Shapely) (float_of_str : string -> result pyfloat).
Context (county_name : pyval).

(** What the UPDATE issued for a row does to one stored row. *)
Definition row_update (idx : nat) (row : feature) (r : db_row) : db_row :=
  if where_uid (row_uid row) r
  then list_to_map (update_set (row_fields float_of_str county_name idx row)
                      (geometry_columns sh row)) ∪ r
  else r.

Fixpoint row_updates (idx : nat) (rows : list feature) (r : db_row) : db_row :=
  match rows with
  | [] => r
  | row :: rest => row_updates (S idx) rest (row_update idx row r)
  end.

End StoredRows.

(* ================================================================== *)
(** * The run when a rollback can raise *)
(* ================================================================== *)

(** Which [conn.rollback()] calls raise: the one in the handler of row
    [idx], and the one after the failed commit of batch [n].  Neither is
    inside a [try]: when one raises, [update_parcel_data] raises, the
    rest of the file unread. *)
Record Rollbacks := {
  row_rollback_raises : nat -> bool;
  batch_rollback_raises : nat -> bool
}.

(** No rollback raises. *)
Definition rollbacks_succeed : Rollbacks :=
  {| row_rollback_raises := fun _ => false;
     batch_rollback_raises := fun _ => false |}.

Module Aborting.
Section Run.
Context (sh : Shapely) (float_of_str : string -> result pyfloat).
Context (db : Database) (rb : Rollbacks) (county_name : pyval).

(** One iteration of [for idx, row in batch_df.iterrows()]: the [try]
    and its handler, whose [conn.rollback()] comes after the
    bookkeeping. *)
Definition row_step (idx : nat) (row : feature) (st : locals) : result locals :=
  match process_row sh float_of_str db county_name idx row st with
  | (Returns _, st') => Returns st'
  | (Raises _, st') =>
      let st' :=
        add_id failed_parcel_ids (row_get row "global_parcel_uid" (PStr "")) st' in
      let st' := incr skipped_rows st' in
      if row_rollback_raises rb idx then Raises DatabaseError
      else Returns (set_conn (rollback (conn st')) st')
  end.

Fixpoint batch_rows (idx : nat) (rows : list feature) (st : locals)
    : result locals :=
  match rows with
  | [] => Returns st
  | row :: rest =>
      match row_step idx row st with
      | Returns st' => batch_rows (S idx) rest st'
      | Raises e => Raises e
      end
  end.

(** "Commit after each batch". *)
Definition commit_batch (batch_no : nat) (st : locals) : result locals :=
  if commit_raises db batch_no then
    if batch_rollback_raises rb batch_no then Raises DatabaseError
    else Returns (set_conn (rollback (conn st)) st)
  else Returns (set_conn (commit (conn st)) st).

(** One iteration of the batch loop. *)
Definition batch_step (gdf : list feature) (st : locals) (batch_start : nat)
    : result locals :=
  let total_rows := length gdf in
  let batch_end := (batch_start + batch_size) `min` total_rows in
  let batch_df := take (batch_end - batch_start) (drop batch_start gdf) in
  match batch_rows batch_start batch_df st with
  | Returns st' => commit_batch (batch_start / batch_size) st'
  | Raises e => Raises e
  end.

(** [update_parcel_data] up to [conn.close()]: the state then, or the
    exception of the rollback that raised. *)
Definition update_parcel_data (gdf : list feature) (t : table) : result locals :=
  let gdf :=
    if bool_decide ("county"%string ∉ columns gdf) && truthy county_name
    then set_county county_name gdf else gdf in
  foldl (fun acc batch_start =>
           match acc with
           | Returns st => batch_step gdf st batch_start
           | Raises e => Raises e
           end)
    (Returns (initial_locals t)) (batch_starts (length gdf)).

End Run.
End Aborting.

Module MoreExamples.
Local Open Scope string_scope.

(** The INSERT of the second record (index label 1) raises; nothing else
    does. *)
Definition fault_at_second : Database := {|
  execute_raises := fun idx site =>
    bool_decide (idx = 1) && match site with InsertPlain => true | _ => false end;
  commit_raises := fun _ => false
|}.

Definition three_parcels : list feature :=
  [Examples.parcel 1; Examples.parcel 2; Examples.parcel 3].

(** The rollback in the handler of the second record raises. *)
Definition rollback_fails_at_second : Rollbacks :=
  {| row_rollback_raises := fun idx => bool_decide (idx = 1);
     batch_rollback_raises := fun _ => false |}.

End MoreExamples.

(* ================================================================== *)
(** * Cleaning of properties before serialisation *)
(* ================================================================== *)

(** A value handed to [json.dumps]: a scalar, a [dict] with string keys
    (its items in insertion order) or a [list].  Values are nested less
    deep than the interpreter's recursion limit. *)
#[local] Unset Elimination Schemes.
Inductive json :=
| JScalar (v : pyval)
| JDict (items : list (string * json))
| JList (items : list json).
#[local] Set Elimination Schemes.

Section JsonInduction.
Variable P : json -> Prop.
Hypothesis scalar_case : forall v, P (JScalar v).
Hypothesis dict_case :
  forall items, Forall (fun kv : string * json => P kv.2) items -> P (JDict items).
Hypothesis list_case : forall items, Forall P items -> P (JList items).

Fixpoint json_induction (value : json) : P value :=
  match value with
  | JScalar v => scalar_case v
  | JDict items =>
      dict_case items
        ((fix go (l : list (string * json))
            : Forall (fun kv : string * json => P kv.2) l :=
            match l with
            | [] => Forall_nil_2 _
            | kv :: l => Forall_cons_2 _ _ _ (json_induction kv.2) (go l)
            end) items)
  | JList items =>
      list_case items
        ((fix go (l : list json) : Forall P l :=
            match l with
            | [] => Forall_nil_2 _
            | v :: l => Forall_cons_2 _ _ _ (json_induction v) (go l)
            end) items)
  end.

End JsonInduction.

(** [c.lower()] of a character: the letters [A] to [Z] are the only
    characters whose lower case is a letter of [nan] or [null]. *)
Definition lower_char (c : Ascii.ascii) : Ascii.ascii :=
  let n := Ascii.nat_of_ascii c in
  if (65 <=? n) && (n <=? 90) then Ascii.ascii_of_nat (n + 32) else c.

(** [s.lower()]. *)
Fixpoint lower (s : string) : string :=
  match s with
  | EmptyString => EmptyString
  | String c s => String (lower_char c) (lower s)
  end.

(** The local function [clean_value] of [_clean_properties_for_json]. *)
Fixpoint clean_value (value : json) : json :=
  match value with
  | JScalar (PFloat x) =>
      if isnan x then JScalar PNone else value
  | JScalar (PStr s) =>
      if bool_decide (lower s ∈ ["nan"; "null"; EmptyString]%string)
      then JScalar PNone else value
  | JDict items => JDict ((fun kv => (kv.1, clean_value kv.2)) <$> items)
  | JList items => JList (clean_value <$> items)
  | _ => value
  end.

Definition _clean_properties_for_json (properties_dict : json) : json :=
  clean_value properties_dict.

(** The scalars [clean_value] replaces by [None]. *)
Definition cleaned_away (v : pyval) : bool :=
  match v with
  | PFloat x => isnan x
  | PStr s => bool_decide (lower s ∈ ["nan"; "null"; EmptyString]%string)
  | _ => false
  end.

Definition scrub (v : pyval) : pyval :=
  if cleaned_away v then PNone else v.

(** The scalars of a value, left to right. *)
Fixpoint scalars (value : json) : list pyval :=
  match value with
  | JScalar v => [v]
  | JDict items => mjoin ((fun kv => scalars kv.2) <$> items)
  | JList items => mjoin (scalars <$> items)
  end.

(** The value with every scalar blanked: its dicts, keys and lists. *)
Fixpoint skeleton (value : json) : json :=
  match value with
  | JScalar _ => JScalar PNone
  | JDict items => JDict ((fun kv => (kv.1, skeleton kv.2)) <$> items)
  | JList items => JList (skeleton <$> items)
  end.

(* ================================================================== *)
(** * Database statistics *)
(* ================================================================== *)

(** [SELECT COUNT( * ) FROM parcels]. *)
Definition count_all (t : table) : nat := length t.

Definition count_flag (v : option bool) (t : table) : nat :=
  length (List.filter (fun r => bool_decide (has_spatial_data r = v)) t).

(** [SELECT has_spatial_data, COUNT( * ) FROM parcels GROUP BY
    has_spatial_data]: one pair for each value that occurs.  The order of
    the groups is not specified. *)
Definition spatial_groups (t : table) : list (option bool * nat) :=
  List.filter (fun g : option bool * nat => 0 <? g.2)
    ((fun v => (v, count_flag v t)) <$> [Some true; Some false; None]).

Record stats := mk_stats {
  total_parcels : nat;
  spatial_parcels : nat;
  non_spatial_parcels : nat
}.

(** [PostGISPipeline.get_database_stats] on the stored table, [fetchall]
    giving the groups in the order the server returns them.  (The counts
    by county are left out.) *)
Definition get_database_stats
    (fetchall : table -> list (option bool * nat)) (t : table) : stats :=
  let total_count := count_all t in
  let spatial_counts := fetchall t in
  let counts :=
    foldl (fun (counts : nat * nat) (group : option bool * nat) =>
             match group.1 with
             | Some true => (group.2, counts.2)
             | _ => (counts.1, group.2)
             end)
      (0, 0) spatial_counts in
  {| total_parcels := total_count;
     spatial_parcels := counts.1;
     non_spatial_parcels := counts.2 |}.

(** Every row has [has_spatial_data] set, to TRUE or FALSE. *)
Definition flagged (t : table) : Prop :=
  Forall (fun r : db_row => exists b, has_spatial_data r = Some b) t.

(* ================================================================== *)
(** * Properties of the coordinate validator *)
(* ================================================================== *)

Section Validator.

Lemma Qlt_bool_iff (x y : Q) : Qlt_bool x y = true <-> (x < y)%Q.
Proof.
  unfold Qlt_bool. rewrite negb_true_iff. split.
  - intros H. apply Qnot_le_lt. intros Hle.
    apply Qle_bool_iff in Hle. congruence.
  - intros H. destruct (Qle_bool y x) eqn:E; [|reflexivity].
    apply Qle_bool_iff in E. apply Qlt_not_le in H. contradiction.
Qed.

Lemma Qlt_bool_false_iff (x y : Q) : Qlt_bool x y = false <-> (y <= x)%Q.
Proof.
  unfold Qlt_bool. rewrite negb_false_iff. apply Qle_bool_iff.
Qed.

(** The four range tests on two finite ordinates. *)
Lemma range_tests_false (a b : Q) :
  flt (Fin a) (of_int (-180)) || fgt (Fin a) (of_int 180)
  || flt (Fin b) (of_int (-90)) || fgt (Fin b) (of_int 90) = false
  <-> (inject_Z (-180) <= a /\ a <= inject_Z 180
       /\ inject_Z (-90) <= b /\ b <= inject_Z 90)%Q.
Proof.
  unfold fgt, of_int; cbn [flt].
  rewrite !orb_false_iff, !Qlt_bool_false_iff. tauto.
Qed.

Lemma is_valid_coord_true_iff (c : coord) :
  is_valid_coord c = true <->
  exists a b rest, c = Fin a :: Fin b :: rest
    /\ (inject_Z (-180) <= a /\ a <= inject_Z 180
        /\ inject_Z (-90) <= b /\ b <= inject_Z 90)%Q.
Proof.
  destruct c as [|lon [|lat rest]].
  - split; [discriminate|]. intros (a & b & r & H & _). discriminate.
  - split; [discriminate|]. intros (a & b & r & H & _). discriminate.
  - unfold is_valid_coord. cbn [length Nat.ltb Nat.leb].
    destruct lon as [|s|a], lat as [|s'|b]; cbn [isnan isinf orb];
      try (split; [discriminate | intros (a' & b' & r & H & _); discriminate]).
    destruct (flt (Fin a) (of_int (-180)) || fgt (Fin a) (of_int 180)
              || flt (Fin b) (of_int (-90)) || fgt (Fin b) (of_int 90)) eqn:E.
    + split; [discriminate|]. intros (a' & b' & r & H & Hr).
      injection H as -> -> _. apply range_tests_false in Hr. congruence.
    + apply range_tests_false in E. split; [|reflexivity].
      intros _. exists a, b, rest. auto.
Qed.

End Validator.

(** C7.  [is_valid_coord] returns [False] exactly for a coordinate with
    fewer than two ordinates, or whose longitude or latitude is NaN or
    infinite, or whose longitude lies outside [-180, 180], or whose
    latitude lies outside [-90, 90]; for every other coordinate (finite
    longitude and latitude within the bounds) it returns [True].  It is a
    function of its argument alone. *)
Theorem is_valid_coord_characterised (c : coord) :
  (is_valid_coord c = false <->
     length c < 2
     \/ exists lon lat rest, c = lon :: lat :: rest
          /\ (non_finite lon \/ non_finite lat
              \/ lies_outside (-180) 180 lon \/ lies_outside (-90) 90 lat))
  /\ (is_valid_coord c = true <->
        exists a b rest, c = Fin a :: Fin b :: rest
          /\ (inject_Z (-180) <= a /\ a <= inject_Z 180
              /\ inject_Z (-90) <= b /\ b <= inject_Z 90)%Q).
Proof.
  split; [|apply is_valid_coord_true_iff].
  rewrite <- not_true_iff_false, is_valid_coord_true_iff.
  split.
  - intros Hno.
    destruct c as [|lon [|lat rest]]; [left; cbn; lia | left; cbn; lia |].
    right. exists lon, lat, rest. split; [reflexivity|].
    destruct lon as [|s|a]; [left; left; reflexivity | left; right; eauto |].
    destruct lat as [|s|b];
      [right; left; left; reflexivity | right; left; right; eauto |].
    right; right.
    destruct (Qlt_le_dec a (inject_Z (-180))) as [H1|H1];
      [left; exists a; auto|].
    destruct (Qlt_le_dec (inject_Z 180) a) as [H2|H2];
      [left; exists a; auto|].
    destruct (Qlt_le_dec b (inject_Z (-90))) as [H3|H3];
      [right; exists b; auto|].
    destruct (Qlt_le_dec (inject_Z 90) b) as [H4|H4];
      [right; exists b; auto|].
    exfalso. apply Hno. exists a, b, rest. auto.
  - intros [Hlen | (lon & lat & rest & -> & Hbad)] (a & b & r & Heq & Ha1 & Ha2 & Hb1 & Hb2).
    + subst c. cbn in Hlen. lia.
    + injection Heq as -> -> _.
      destruct Hbad as [[H|[s H]] | [[H|[s H]] | [(q & H & Hq) | (q & H & Hq)]]];
        try discriminate; injection H as <-.
      * destruct Hq as [Hq|Hq]; [apply Qlt_not_le in Hq | apply Qlt_not_le in Hq];
          contradiction.
      * destruct Hq as [Hq|Hq]; [apply Qlt_not_le in Hq | apply Qlt_not_le in Hq];
          contradiction.
Qed.
(* ================================================================== *)
(** * Properties of the ring cleaner *)
(* ================================================================== *)

Section Cleaner.
Context (sh : Shapely).

Lemma clean_coords_loop_spec (coords cleaned : ring) (dropped : nat) :
  clean_coords_loop coords cleaned dropped =
  (cleaned ++ (lon_lat <$> List.filter is_valid_coord coords),
   dropped + length (List.filter (fun c => negb (is_valid_coord c)) coords)).
Proof.
  revert cleaned dropped.
  induction coords as [|c coords IH]; intros cleaned dropped; cbn.
  - by rewrite app_nil_r, Nat.add_0_r.
  - destruct (is_valid_coord c); cbn; rewrite IH.
    + by rewrite <- app_assoc.
    + f_equal. lia.
Qed.

Lemma filter_lengths {A} (f : A -> bool) (l : list A) :
  length (List.filter f l) + length (List.filter (fun x => negb (f x)) l)
  = length l.
Proof.
  induction l as [|x l IH]; cbn; [done|].
  destruct (f x); cbn; lia.
Qed.

Lemma clean_coords_cleaned (coords : ring) (label : string) :
  (clean_coords coords label).1 = lon_lat <$> List.filter is_valid_coord coords.
Proof.
  unfold clean_coords. by rewrite clean_coords_loop_spec.
Qed.

Lemma clean_coords_printed (coords : ring) (label : string) :
  (clean_coords coords label).2 =
  let dropped := length (List.filter (fun c => negb (is_valid_coord c)) coords) in
  if 0 <? dropped then Some (Dropped dropped (length coords) label) else None.
Proof.
  unfold clean_coords. by rewrite clean_coords_loop_spec.
Qed.

(** Cutting a coordinate to (lon, lat) does not change its validity. *)
Lemma is_valid_lon_lat (c : coord) : is_valid_coord (lon_lat c) = is_valid_coord c.
Proof. by destruct c as [|lon [|lat [|z rest]]]. Qed.

Lemma lon_lat_idemp (c : coord) : lon_lat (lon_lat c) = lon_lat c.
Proof. by destruct c as [|lon [|lat [|z rest]]]. Qed.

Lemma lon_lat_length (c : coord) : length (lon_lat c) <= 2 \/ lon_lat c = c.
Proof. destruct c as [|lon [|lat [|z rest]]]; cbn; auto. Qed.

Lemma filter_valid_cleaned (coords : ring) :
  List.filter is_valid_coord (lon_lat <$> List.filter is_valid_coord coords)
  = lon_lat <$> List.filter is_valid_coord coords.
Proof.
  induction coords as [|c coords IH]; cbn; [done|].
  destruct (is_valid_coord c) eqn:E; cbn; [|done].
  by rewrite is_valid_lon_lat, E, IH.
Qed.

Lemma cleaned_fixed (coords : ring) :
  lon_lat <$> List.filter is_valid_coord
                (lon_lat <$> List.filter is_valid_coord coords)
  = lon_lat <$> List.filter is_valid_coord coords.
Proof.
  rewrite filter_valid_cleaned, <- list_fmap_compose.
  apply list_fmap_ext. intros _ c _. apply lon_lat_idemp.
Qed.

Lemma clean_interiors_spec (i : nat) (rings interiors : list ring) :
  clean_interiors i rings interiors =
  interiors ++ List.filter (fun r => 4 <=? length r)
                 ((fun r => lon_lat <$> List.filter is_valid_coord r) <$> rings).
Proof.
  revert i interiors.
  induction rings as [|r rings IH]; intros i interiors; cbn -[Nat.leb].
  - by rewrite app_nil_r.
  - rewrite clean_coords_cleaned.
    destruct (4 <=? length (lon_lat <$> List.filter is_valid_coord r));
      rewrite IH; [by rewrite <- app_assoc | done].
Qed.

Lemma shapely_LinearRing_closes (r : ring) :
  4 <= length r -> shapely_LinearRing r = Returns (closed_ring r).
Proof.
  intros Hlen. destruct r as [|c r]; [cbn in Hlen; lia|].
  unfold shapely_LinearRing, closed_ring.
  destruct (length (c :: r) <? 3) eqn:E1; [apply Nat.ltb_lt in E1; lia|].
  destruct (length (c :: r) =? 3) eqn:E2; [apply Nat.eqb_eq in E2; lia|].
  cbn [orb]. by destruct (ring_closed (c :: r)).
Qed.

Lemma mapM_LinearRing_closes (rs : list ring) :
  Forall (fun r => 4 <= length r) rs ->
  mapM shapely_LinearRing rs = Returns (closed_ring <$> rs).
Proof.
  induction 1 as [|r rs Hr _ IH]; cbn; [done|].
  rewrite shapely_LinearRing_closes by done. cbn. by rewrite IH.
Qed.

Lemma shapely_Polygon_closes (shell : ring) (holes : list ring) :
  4 <= length shell -> Forall (fun r => 4 <= length r) holes ->
  shapely_Polygon shell holes =
  Returns (mk_polygon (closed_ring shell) (closed_ring <$> holes)).
Proof.
  intros Hs Hh. unfold shapely_Polygon.
  rewrite shapely_LinearRing_closes by done. cbn.
  by rewrite mapM_LinearRing_closes.
Qed.

Lemma Forall_filter_length (rs : list ring) :
  Forall (fun r => 4 <= length r) (List.filter (fun r => 4 <=? length r) rs).
Proof.
  apply Forall_forall. intros r Hr. apply list_elem_of_In, filter_In in Hr.
  destruct Hr as [_ Hr]. by apply Nat.leb_le in Hr.
Qed.

(** The Polygon case of [_validate_and_clean_coordinates] in closed form. *)
Lemma clean_polygon_spec (p : polygon) :
  clean_polygon sh p =
  Returns
    (let exterior := lon_lat <$> List.filter is_valid_coord (exterior p) in
     if length exterior <? 4 then None
     else
       let holes :=
         List.filter (fun r => 4 <=? length r)
           ((fun r => lon_lat <$> List.filter is_valid_coord r) <$> interiors p) in
       let poly := mk_polygon (closed_ring exterior) (closed_ring <$> holes) in
       if is_valid sh (Polygon poly) then Some poly else None).
Proof.
  unfold clean_polygon. rewrite clean_coords_cleaned. cbn zeta.
  destruct (length (lon_lat <$> List.filter is_valid_coord (exterior p)) <? 4)
    eqn:E; [done|].
  apply Nat.ltb_ge in E.
  rewrite clean_interiors_spec. cbn [app].
  rewrite shapely_Polygon_closes; [|done|apply Forall_filter_length].
  cbn. by destruct (is_valid sh _).
Qed.

End Cleaner.

(** C5 (amended).  [clean_coords] keeps the valid coordinates in their
    original order, each cut to (lon, lat) when it has more than two
    ordinates, and removes exactly the invalid ones; the number dropped is
    the number of invalid coordinates, printed whenever it is positive.
    In the caller an exterior ring left with fewer than 4 points makes the
    whole Polygon [None], while an interior ring left with fewer than 4
    points is only left out of the cleaned Polygon. *)
Theorem clean_coords_filters_in_order (sh : Shapely) (coords : ring)
    (label : string) (p : polygon) :
  let cleaned := (clean_coords coords label).1 in
  let dropped := length (List.filter (fun c => negb (is_valid_coord c)) coords) in
  cleaned = lon_lat <$> List.filter is_valid_coord coords
  /\ length cleaned + dropped = length coords
  /\ (clean_coords coords label).2 =
       (if 0 <? dropped then Some (Dropped dropped (length coords) label)
        else None)
  /\ _validate_and_clean_coordinates sh (Polygon p) =
       Returns
         (let exterior := (clean_coords (exterior p) "exterior ring").1 in
          if length exterior <? 4 then None
          else
            let holes :=
              List.filter (fun r => 4 <=? length r)
                ((fun r => (clean_coords r "interior ring").1) <$> interiors p) in
            let poly := mk_polygon (closed_ring exterior) (closed_ring <$> holes) in
            if is_valid sh (Polygon poly) then Some (Polygon poly) else None).
Proof.
  cbn zeta. rewrite clean_coords_cleaned, clean_coords_printed. cbn zeta.
  split; [done|]. split.
  { rewrite length_fmap. apply filter_lengths. }
  split; [done|].
  cbn [_validate_and_clean_coordinates]. rewrite clean_polygon_spec.
  rewrite clean_coords_cleaned. cbn zeta.
  assert (((fun r => (clean_coords r "interior ring").1) <$> interiors p)
          = ((fun r => lon_lat <$> List.filter is_valid_coord r) <$> interiors p))
    as ->.
  { apply list_fmap_ext. intros _ r _. apply clean_coords_cleaned. }
  cbn -[Nat.ltb Nat.leb].
  destruct (length (lon_lat <$> List.filter is_valid_coord (exterior p)) <? 4);
    [done|].
  by destruct (is_valid sh _).
Qed.

(** C5, as stated.  A valid coordinate with a Z ordinate is not kept: the
    cleaned ring holds another tuple in its place. *)
Lemma clean_coords_not_a_filter :
  let c := Examples.pt3 0 0 5 in
  is_valid_coord c = true
  /\ (clean_coords [c] "exterior ring").1 <> List.filter is_valid_coord [c]
  /\ c ∉ (clean_coords [c] "exterior ring").1.
Proof.
  cbn zeta. split; [reflexivity|]. split.
  - vm_compute. discriminate.
  - vm_compute. intros H. apply list_elem_of_In in H.
    destruct H as [H|[]]. discriminate.
Qed.

(** C6 (amended).  Applying [clean_coords] twice equals applying it once,
    for every ring: what the first application returns, the second
    returns unchanged, with nothing printed.  And a ring all of whose
    coordinates are valid and have exactly two ordinates is returned
    unchanged by the first application already, with nothing printed. *)
Theorem clean_coords_idempotent (coords : ring) (label label' : string) :
  clean_coords (clean_coords coords label).1 label'
  = ((clean_coords coords label).1, None)
  /\ (Forall (fun c : coord => is_valid_coord c = true /\ length c = 2) coords ->
      clean_coords coords label = (coords, None)).
Proof.
  split.
  - rewrite (surjective_pairing (clean_coords _ label')).
    rewrite clean_coords_printed, !clean_coords_cleaned, cleaned_fixed.
    cbn zeta.
    pose proof (filter_lengths is_valid_coord
                  (lon_lat <$> List.filter is_valid_coord coords)) as Hlen.
    rewrite filter_valid_cleaned in Hlen.
    assert (length (List.filter (fun c => negb (is_valid_coord c))
                      (lon_lat <$> List.filter is_valid_coord coords)) = 0)
      as -> by lia.
    reflexivity.
  - intros Hall.
    rewrite (surjective_pairing (clean_coords coords label)).
    rewrite clean_coords_cleaned, clean_coords_printed. cbn zeta.
    assert (List.filter is_valid_coord coords = coords
            /\ List.filter (fun c => negb (is_valid_coord c)) coords = []
            /\ lon_lat <$> coords = coords) as (-> & -> & ->); [|done].
    induction Hall as [|c coords [Hv Hl] _ (IH1 & IH2 & IH3)]; cbn; [done|].
    rewrite Hv, IH1, IH2, IH3. cbn.
    destruct c as [|lon [|lat [|z rest]]]; cbn in Hl; try lia. done.
Qed.

Lemma clean_coords_idempotent_witness :
  Forall (fun c : coord => is_valid_coord c = true /\ length c = 2)
    Examples.triangle
  /\ clean_coords Examples.triangle "exterior ring" = (Examples.triangle, None)
  /\ clean_coords (clean_coords Examples.triangle_3d "exterior ring").1 "again"
     = ((clean_coords Examples.triangle_3d "exterior ring").1, None).
Proof.
  assert (Forall (fun c : coord => is_valid_coord c = true /\ length c = 2)
            Examples.triangle) as H by (repeat constructor).
  split; [exact H|]. split.
  - exact (proj2 (clean_coords_idempotent Examples.triangle "exterior ring"
                    "again") H).
  - exact (proj1 (clean_coords_idempotent Examples.triangle_3d "exterior ring"
                    "again")).
Defined.

(** C6, as stated.  A closed ring of four valid coordinates that carry a
    Z ordinate does not come back unchanged. *)
Lemma clean_coords_changes_valid_ring :
  let r := Examples.triangle_3d in
  Forall (fun c => is_valid_coord c = true) r
  /\ 4 <= length r
  /\ ring_closed r = true
  /\ (clean_coords r "exterior ring").1 <> r.
Proof.
  cbn zeta. split; [repeat constructor|]. split; [cbn; lia|].
  split; [reflexivity|]. vm_compute. discriminate.
Qed.

(** C10.  A geometry that is neither a Polygon nor a MultiPolygon comes
    back from [_validate_and_clean_coordinates] unchanged: its coordinates
    are not tested for finiteness or for the longitude/latitude bounds. *)
Theorem non_polygonal_passes_through (sh : Shapely) (g : geometry) :
  geom_type g <> "Polygon"%string ->
  geom_type g <> "MultiPolygon"%string ->
  _validate_and_clean_coordinates sh g = Returns (Some g).
Proof.
  intros HP HM. destruct g; cbn in *; congruence.
Qed.

Lemma non_polygonal_passes_through_witness :
  let g := Point [of_int 500; of_int 95] in
  geom_type g <> "Polygon"%string
  /\ geom_type g <> "MultiPolygon"%string
  /\ is_valid_coord [of_int 500; of_int 95] = false
  /\ _validate_and_clean_coordinates Examples.shapely_table g = Returns (Some g).
Proof.
  cbn zeta.
  assert (geom_type (Point [of_int 500; of_int 95]) <> "Polygon"%string) as H1
    by (cbn; discriminate).
  assert (geom_type (Point [of_int 500; of_int 95]) <> "MultiPolygon"%string) as H2
    by (cbn; discriminate).
  split; [exact H1|]. split; [exact H2|]. split; [reflexivity|].
  exact (non_polygonal_passes_through Examples.shapely_table _ H1 H2).
Defined.
(* ================================================================== *)
(** * Properties of the numeric parser *)
(* ================================================================== *)

Section Totality.

Lemma try_except_returns {A} (body : result A) (handler : exn -> result A) :
  (forall e, exists r, handler e = Returns r) ->
  exists r, try_except body handler = Returns r.
Proof.
  intros Hh. destruct body as [a|e]; cbn; [eauto | apply Hh].
Qed.

Lemma parse_numeric_returns (float_of_str : string -> result pyfloat) (val : pyval) :
  exists r, _parse_numeric float_of_str val = Returns r.
Proof. apply try_except_returns. eauto. Qed.

Lemma read_fields_returns (float_of_str : string -> result pyfloat)
    (county_name : pyval) (idx : nat) (row : feature) :
  exists f, read_fields float_of_str county_name idx row = Returns f.
Proof.
  unfold read_fields.
  destruct (parse_numeric_returns float_of_str (row_get row "acreage" (PStr "")))
    as [a ->].
  destruct (parse_numeric_returns float_of_str
              (row_get row "property_value" (PStr ""))) as [v ->].
  cbn. eauto.
Qed.

End Totality.

(** C9.  [_parse_numeric] never raises; on [None], the empty string, the
    strings "null" and "nan", and on any value [float] fails on, it returns
    [None].  A row whose acreage is "nan" is read with an absent acreage. *)
Theorem parse_numeric_never_raises (float_of_str : string -> result pyfloat)
    (val : pyval) :
  (exists r, _parse_numeric float_of_str val = Returns r)
  /\ (val = PNone \/ val = PStr "" \/ val = PStr "null" \/ val = PStr "nan"
      \/ (exists e, py_float float_of_str val = Raises e) ->
      _parse_numeric float_of_str val = Returns None)
  /\ (forall county_name idx row,
        row_get row "acreage" (PStr "") = PStr "nan" ->
        exists f, read_fields float_of_str county_name idx row = Returns f
                  /\ acreage f = None).
Proof.
  split; [apply parse_numeric_returns|]. split.
  - intros [-> | [-> | [-> | [-> | [e He]]]]]; try reflexivity.
    unfold _parse_numeric.
    destruct (py_in val _); [reflexivity|]. by rewrite He.
  - intros county_name idx row Hrow. unfold read_fields. rewrite Hrow.
    change (_parse_numeric float_of_str (PStr "nan")) with (@Returns (option pyfloat) None).
    destruct (parse_numeric_returns float_of_str
                (row_get row "property_value" (PStr ""))) as [v ->].
    cbn. eauto.
Qed.

(** The cases of C9 on concrete values: a string [float] rejects, and
    the four absent spellings. *)
Lemma parse_numeric_never_raises_witness :
  py_float Examples.float_table (PStr "n/a") = Raises ValueError
  /\ _parse_numeric Examples.float_table (PStr "n/a") = Returns None
  /\ _parse_numeric Examples.float_table (PStr "nan") = Returns None
  /\ _parse_numeric Examples.float_table (PStr "12.5") = Returns (Some (Fin (25 # 2))).
Proof.
  split; [reflexivity|]. split.
  - apply (parse_numeric_never_raises Examples.float_table (PStr "n/a")).
    right; right; right; right. exists ValueError. reflexivity.
  - split.
    + apply (parse_numeric_never_raises Examples.float_table (PStr "nan")). auto.
    + reflexivity.
Defined.

(* ================================================================== *)
(** * Properties of the encoder *)
(* ================================================================== *)

(** C8 fails on the code: with the parcel identifier of the debugging
    block and a null geometry, [safe_geometry_to_wkb] raises instead of
    returning [None]; the block reads [geometry.geom_type] before the
    "Check for null geometry first" test is reached. *)
Theorem safe_geometry_to_wkb_raises_on_null (sh : Shapely) :
  safe_geometry_to_wkb sh None (PStr "teton_county_wy_000001")
  = Raises AttributeError.
Proof. reflexivity. Qed.

(** Everywhere else the function returns: on every geometry, and on a
    null geometry under any other identifier. *)
Lemma safe_geometry_to_wkb_returns (sh : Shapely) (geometry : option geometry)
    (parcel_id : pyval) :
  geometry <> None \/ py_eq parcel_id (PStr "teton_county_wy_000001") = false ->
  exists r, safe_geometry_to_wkb sh geometry parcel_id = Returns r.
Proof.
  intros H. unfold safe_geometry_to_wkb.
  destruct geometry as [g|].
  - destruct (py_eq parcel_id _); cbn; apply try_except_returns; eauto.
  - destruct H as [H|H]; [congruence|]. rewrite H. cbn. eauto.
Qed.

Lemma safe_geometry_to_wkb_null (sh : Shapely) (parcel_id : pyval) :
  py_eq parcel_id (PStr "teton_county_wy_000001") = false ->
  safe_geometry_to_wkb sh None parcel_id = Returns None.
Proof. intros H. unfold safe_geometry_to_wkb. by rewrite H. Qed.

Lemma safe_geometry_to_wkb_empty (sh : Shapely) (g : geometry) (parcel_id : pyval) :
  is_empty g = true ->
  safe_geometry_to_wkb sh (Some g) parcel_id = Returns None.
Proof.
  intros H. unfold safe_geometry_to_wkb. rewrite H.
  by destruct (py_eq parcel_id _).
Qed.

(* ================================================================== *)
(** * Properties of the repairer *)
(* ================================================================== *)

(** C3 (amended).  When [make_valid] leaves the geometry invalid and it is
    a Polygon of area below 1e-10, [_repair_geometry] returns [None]
    without attempting the simplify-and-buffer salvage; when [make_valid]
    yields a valid geometry, that geometry is the result. *)
Theorem repair_rejects_degenerate_polygon (sh : Shapely) (g repaired : geometry) :
  make_valid sh g = Returns repaired ->
  (is_valid sh repaired = false ->
   geom_type repaired = "Polygon"%string ->
   flt (area sh repaired) near_zero = true ->
   _repair_geometry sh g = Returns None)
  /\ (is_valid sh repaired = true ->
      _repair_geometry sh g = Returns (Some repaired)).
Proof.
  intros Hmv. unfold _repair_geometry. rewrite Hmv. cbn [mbind result_bind].
  split.
  - intros Hinv Hty Harea. rewrite Hinv. cbn [negb].
    destruct repaired; cbn in Hty; try discriminate.
    by rewrite Harea.
  - intros Hv. by rewrite Hv.
Qed.

Lemma repair_rejects_degenerate_polygon_witness :
  let sh := Examples.shapely_giving_up in
  let g := Polygon Examples.collapsed in
  make_valid sh g = Returns g
  /\ is_valid sh g = false
  /\ geom_type g = "Polygon"%string
  /\ flt (area sh g) near_zero = true
  /\ _repair_geometry sh g = Returns None.
Proof.
  cbn zeta.
  assert (make_valid Examples.shapely_giving_up (Polygon Examples.collapsed)
          = Returns (Polygon Examples.collapsed)) as H0 by reflexivity.
  assert (is_valid Examples.shapely_giving_up (Polygon Examples.collapsed) = false)
    as H1 by reflexivity.
  assert (geom_type (Polygon Examples.collapsed) = "Polygon"%string) as H2
    by reflexivity.
  assert (flt (area Examples.shapely_giving_up (Polygon Examples.collapsed))
              near_zero = true) as H3 by reflexivity.
  repeat (split; [assumption|]).
  exact (proj1 (repair_rejects_degenerate_polygon _ _ _ H0) H1 H2 H3).
Defined.

(** C3, as stated.  The invalid, zero-area polygon of shapely's
    documentation is not rejected: [make_valid] turns it into valid lines
    and [_repair_geometry] returns them. *)
Lemma repair_returns_zero_area_geometry :
  let sh := Examples.shapely_table in
  let g := Polygon Examples.collapsed in
  is_valid sh g = false
  /\ area sh g = of_int 0
  /\ _repair_geometry sh g = Returns (Some Examples.collapsed_lines)
  /\ _repair_geometry sh g <> Returns None.
Proof.
  cbn zeta. repeat split. discriminate.
Qed.
(* ================================================================== *)
(** * Properties of the 3D to 2D conversion *)
(* ================================================================== *)

Section Conversion.
Context (sh : Shapely).

Lemma is_3d_false (cs : list coord) :
  Forall (fun c : coord => length c <= 2) cs -> is_3d cs = false.
Proof.
  induction 1 as [|c cs Hc _ IH]; cbn -[Nat.ltb]; [done|].
  destruct (2 <? length c) eqn:E; [apply Nat.ltb_lt in E; lia | done].
Qed.

Lemma strip_z_flatten (cs : list coord) :
  Forall (fun c : coord => 2 <= length c) cs ->
  strip_z cs = Returns (flatten_ring cs).
Proof.
  unfold strip_z, flatten_ring.
  induction 1 as [|c cs Hc _ IH]; cbn; [done|].
  destruct c as [|x [|y rest]]; cbn in Hc; try lia.
  cbn. by rewrite IH.
Qed.

Lemma mapM_strip_z_flatten (rs : list ring) :
  Forall well_formed_ring rs ->
  mapM strip_z rs = Returns (flatten_ring <$> rs).
Proof.
  induction 1 as [|r rs [_ Hr] _ IH]; cbn; [done|].
  rewrite strip_z_flatten by done. cbn. by rewrite IH.
Qed.

Lemma flatten_ring_length (r : ring) : length (flatten_ring r) = length r.
Proof. unfold flatten_ring. by rewrite length_fmap. Qed.

Lemma strip_polygon_flatten (p : polygon) :
  well_formed p ->
  strip_polygon p = Returns (flatten_ring (exterior p), flatten_polygon p).
Proof.
  intros [[Hlen Hext] Hints]. unfold strip_polygon.
  rewrite strip_z_flatten by done. cbn.
  rewrite mapM_strip_z_flatten by done. cbn.
  rewrite shapely_Polygon_closes.
  - cbn. unfold flatten_polygon. by rewrite <- list_fmap_compose.
  - by rewrite flatten_ring_length.
  - apply Forall_fmap. eapply Forall_impl; [exact Hints|].
    intros r [Hr _]. cbn. by rewrite flatten_ring_length.
Qed.

Lemma convert_parts_spec (parts valid_polys : list polygon) :
  Forall well_formed parts ->
  convert_parts sh parts valid_polys =
  Returns (valid_polys
           ++ List.filter (fun q => is_valid sh (Polygon q))
                (flatten_polygon <$> parts)).
Proof.
  intros Hwf. revert valid_polys.
  induction Hwf as [|p parts Hp _ IH]; intros valid_polys; cbn -[Nat.leb].
  - by rewrite app_nil_r.
  - rewrite strip_polygon_flatten by done. cbn -[Nat.leb].
    destruct Hp as [[Hlen _] _].
    rewrite flatten_ring_length.
    replace (4 <=? length (exterior p)) with true
      by (symmetry; by apply Nat.leb_le).
    rewrite andb_true_r.
    destruct (is_valid sh (Polygon (flatten_polygon p))); rewrite IH;
      [by rewrite <- app_assoc | done].
Qed.

(** Flattened rings and polygons have two ordinates per coordinate. *)
Lemma flatten_ring_2d (r : ring) :
  Forall (fun c : coord => 2 <= length c) r ->
  Forall (fun c : coord => length c = 2) (flatten_ring r).
Proof.
  intros H. unfold flatten_ring. apply Forall_fmap.
  eapply Forall_impl; [exact H|]. intros c Hc. cbn in *.
  rewrite length_take. lia.
Qed.

Lemma closed_ring_2d (r : ring) :
  Forall (fun c : coord => length c = 2) r ->
  Forall (fun c : coord => length c = 2) (closed_ring r).
Proof.
  intros H. destruct r as [|c r]; [done|]. unfold closed_ring.
  destruct (ring_closed (c :: r)); [done|].
  apply Forall_app. split; [done|]. apply Forall_cons in H as [Hc _]. by constructor.
Qed.

Lemma flatten_polygon_2d (p : polygon) :
  well_formed p ->
  Forall (fun c : coord => length c = 2) (polygon_coords (flatten_polygon p)).
Proof.
  intros [[_ Hext] Hints]. unfold polygon_coords, flatten_polygon. cbn.
  apply Forall_app. split.
  - by apply closed_ring_2d, flatten_ring_2d.
  - apply Forall_concat, Forall_fmap.
    eapply Forall_impl; [exact Hints|]. intros r [_ Hr]. cbn.
    by apply closed_ring_2d, flatten_ring_2d.
Qed.

Lemma convert_polygon_2d_noop (p : polygon) :
  is_3d (exterior p) = false ->
  _convert_3d_to_2d sh (Polygon p) = Returns (Some (Polygon p)).
Proof. intros H. unfold _convert_3d_to_2d. by rewrite H. Qed.

Lemma convert_multipolygon_2d_noop (ps : list polygon) :
  forallb (fun p => negb (is_3d (exterior p))) ps = true ->
  _convert_3d_to_2d sh (MultiPolygon ps) = Returns (Some (MultiPolygon ps)).
Proof. intros H. unfold _convert_3d_to_2d. by rewrite H. Qed.

End Conversion.

(** C4 (amended).  [_convert_3d_to_2d] returns a Polygon or MultiPolygon
    that is already 2D unchanged.  For a Polygon whose exterior ring has a
    Z ordinate it returns the Polygon with every coordinate of every ring,
    exterior and interior, cut to (lon, lat).  For a MultiPolygon with such
    a part it cuts every ring of every part in the same way and keeps, in
    order, the parts that are valid afterwards, returning [None] when none
    is; no coordinate of a returned geometry has a third ordinate. *)
Theorem convert_3d_to_2d_strips_z (sh : Shapely) :
  (forall g,
     geom_type g = "Polygon"%string \/ geom_type g = "MultiPolygon"%string ->
     Forall (fun c : coord => length c <= 2) (polygonal_coords g) ->
     _convert_3d_to_2d sh g = Returns (Some g))
  /\ (forall p,
        well_formed p -> is_3d (exterior p) = true ->
        _convert_3d_to_2d sh (Polygon p)
        = Returns (Some (Polygon (flatten_polygon p)))
        /\ Forall (fun c : coord => length c = 2)
             (polygon_coords (flatten_polygon p)))
  /\ (forall ps,
        Forall well_formed ps ->
        existsb (fun p => is_3d (exterior p)) ps = true ->
        let kept := List.filter (fun q => is_valid sh (Polygon q))
                      (flatten_polygon <$> ps) in
        _convert_3d_to_2d sh (MultiPolygon ps)
        = Returns (match kept with
                   | [] => None
                   | _ :: _ => Some (MultiPolygon kept)
                   end)
        /\ Forall (fun c : coord => length c = 2)
             (polygonal_coords (MultiPolygon kept))).
Proof.
  split; [|split].
  - intros g Hty H2d. destruct g; cbn in Hty; destruct Hty as [?|?];
      try discriminate.
    + apply convert_polygon_2d_noop, is_3d_false.
      cbn in H2d. unfold polygon_coords in H2d.
      by apply Forall_app in H2d as [? _].
    + apply convert_multipolygon_2d_noop.
      cbn in H2d. apply forallb_forall. intros p Hp.
      rewrite is_3d_false; [done|].
      apply list_elem_of_In in Hp.
      rewrite Forall_concat, Forall_fmap, Forall_forall in H2d.
      specialize (H2d p Hp). cbn in H2d. unfold polygon_coords in H2d.
      by apply Forall_app in H2d as [? _].
  - intros p Hwf H3d. split; [|by apply flatten_polygon_2d].
    unfold _convert_3d_to_2d. rewrite H3d. cbn [negb].
    by rewrite strip_polygon_flatten.
  - intros ps Hwf H3d kept. split.
    + unfold _convert_3d_to_2d.
      replace (forallb (fun p => negb (is_3d (exterior p))) ps) with false.
      2:{ symmetry. apply not_true_iff_false. intros Hall.
          apply existsb_exists in H3d as (p & Hp & H3).
          rewrite forallb_forall in Hall. specialize (Hall p Hp).
          rewrite H3 in Hall. discriminate. }
      rewrite convert_parts_spec by done. cbn [app mbind result_bind].
      fold kept. by destruct kept.
    + cbn. apply Forall_concat, Forall_fmap, Forall_forall.
      intros q Hq. cbn.
      apply list_elem_of_In, filter_In in Hq as [Hq _].
      apply list_elem_of_In, list_elem_of_fmap in Hq as (p & -> & Hp).
      apply flatten_polygon_2d.
      rewrite Forall_forall in Hwf. by apply Hwf.
Qed.

(** The three cases of C4 (amended) on the example square: in 2D it is
    returned as it is, with a Z ordinate it comes back flattened, alone
    and as the valid part of a MultiPolygon. *)
Lemma convert_3d_to_2d_strips_z_witness :
  let sh := Examples.shapely_table in
  (well_formed Examples.square_3d
   /\ is_3d (exterior Examples.square_3d) = true
   /\ _convert_3d_to_2d sh (Polygon Examples.square_3d)
      = Returns (Some (Polygon Examples.square)))
  /\ (Forall (fun c : coord => length c <= 2)
        (polygonal_coords (Polygon Examples.square))
      /\ _convert_3d_to_2d sh (Polygon Examples.square)
         = Returns (Some (Polygon Examples.square)))
  /\ (Forall well_formed [Examples.bowtie_3d; Examples.square_3d]
      /\ _convert_3d_to_2d sh
           (MultiPolygon [Examples.bowtie_3d; Examples.square_3d])
         = Returns (Some (MultiPolygon [Examples.square]))).
Proof.
  cbn zeta.
  assert (forall r : ring, (4 <=? length r) = true ->
            forallb (fun c : coord => 2 <=? length c) r = true ->
            well_formed_ring r) as Hring.
  { intros r H1 H2. split; [by apply Nat.leb_le|].
    apply Forall_forall. intros c Hc. apply Nat.leb_le.
    rewrite forallb_forall in H2. apply H2. by apply list_elem_of_In. }
  assert (well_formed Examples.square_3d) as Hsq.
  { split; [by apply Hring|]. repeat constructor; by apply Hring. }
  assert (well_formed Examples.bowtie_3d) as Hbt.
  { split; [by apply Hring|]. constructor. }
  destruct (convert_3d_to_2d_strips_z Examples.shapely_table) as (H1 & H2 & H3).
  split; [|split].
  - split; [exact Hsq|]. split; [reflexivity|].
    exact (proj1 (H2 Examples.square_3d Hsq eq_refl)).
  - assert (Forall (fun c : coord => length c <= 2)
              (polygonal_coords (Polygon Examples.square))) as H2d.
    { apply Forall_forall. intros c Hc. apply Nat.leb_le.
      revert c Hc. apply Forall_forall.
      repeat constructor. }
    split; [exact H2d|]. exact (H1 (Polygon Examples.square) (or_introl eq_refl) H2d).
  - assert (Forall well_formed [Examples.bowtie_3d; Examples.square_3d]) as Hwf
      by (repeat constructor; assumption).
    split; [exact Hwf|].
    exact (proj1 (H3 [Examples.bowtie_3d; Examples.square_3d] Hwf eq_refl)).
Defined.

(** C4, as stated.  A MultiPolygon with a Z ordinate whose only part is
    invalid yields no geometry; and with a valid part beside it, the
    invalid part is left out rather than stripped. *)
Lemma convert_3d_to_2d_drops_parts :
  let sh := Examples.shapely_table in
  _convert_3d_to_2d sh (MultiPolygon [Examples.bowtie_3d]) = Returns None
  /\ _convert_3d_to_2d sh (MultiPolygon [Examples.bowtie_3d; Examples.square_3d])
     = Returns (Some (MultiPolygon [Examples.square])).
Proof. cbn zeta. split; reflexivity. Qed.

(* ================================================================== *)
(** * Further properties of the geometry pipeline *)
(* ================================================================== *)

Section Pipeline.
Context (sh : Shapely).

Lemma bind_Returns {A B} (m : result A) (k : A -> result B) (b : B) :
  m ≫= k = Returns b -> exists a, m = Returns a /\ k a = Returns b.
Proof. destruct m as [a|e]; cbn; [eauto | discriminate]. Qed.

Lemma try_except_None {A} (body : result (option A)) (a : A) :
  try_except body (fun _ => Returns None) = Returns (Some a) ->
  body = Returns (Some a).
Proof. destruct body; cbn; [done | discriminate]. Qed.

Lemma feq_refl_finite (x : pyfloat) :
  isnan x = false -> feq x x = true.
Proof.
  destruct x as [|s|q]; cbn; [discriminate | | ]; intros _.
  - by apply bool_decide_eq_true.
  - apply Qeq_bool_refl.
Qed.

Lemma valid_coord_finite (c : coord) :
  is_valid_coord c = true -> length c = 2 -> coord_eqb c c = true.
Proof.
  intros Hv Hl. apply is_valid_coord_true_iff in Hv as (a & b & rest & -> & _).
  destruct rest; cbn in Hl; [|lia].
  cbn. by rewrite !Qeq_bool_refl.
Qed.

(** Closing a ring of valid 2D coordinates gives a clean ring. *)
Lemma closed_ring_clean (r : ring) :
  4 <= length r ->
  Forall (fun c : coord => is_valid_coord c = true /\ length c = 2) r ->
  clean_ring (closed_ring r).
Proof.
  intros Hlen Hall. destruct r as [|c r]; [cbn in Hlen; lia|].
  unfold closed_ring. destruct (ring_closed (c :: r)) eqn:E.
  - by repeat split.
  - pose proof Hall as Hall'. apply Forall_cons in Hall' as [[Hv Hl] _].
    split; [rewrite length_app; cbn in *; lia|]. split.
    + change (ring_closed ((c :: r) ++ [c]))
        with (match last ((c :: r) ++ [c]) with
              | Some d => coord_eqb c d
              | None => true
              end).
      rewrite last_snoc. by apply valid_coord_finite.
    + apply Forall_app. split; [done|]. by constructor.
Qed.

Lemma cleaned_coords_valid (r : ring) :
  Forall (fun c : coord => is_valid_coord c = true /\ length c = 2)
    (lon_lat <$> List.filter is_valid_coord r).
Proof.
  apply Forall_fmap, Forall_forall. intros c Hc.
  apply list_elem_of_In, filter_In in Hc as [_ Hv]. cbn.
  rewrite is_valid_lon_lat. split; [done|].
  apply is_valid_coord_true_iff in Hv as (a & b & rest & -> & _).
  by destruct rest.
Qed.

Lemma cleaned_polygon_clean (p : polygon) :
  4 <= length (lon_lat <$> List.filter is_valid_coord (exterior p)) ->
  clean_rings (cleaned_polygon p).
Proof.
  intros Hlen. split; cbn.
  - apply closed_ring_clean; [done | apply cleaned_coords_valid].
  - apply Forall_fmap, Forall_forall. intros r Hr. cbn.
    apply list_elem_of_In, filter_In in Hr as [Hr Hl].
    change ((4 <=? length r) = true) in Hl. apply Nat.leb_le in Hl.
    apply closed_ring_clean; [done|].
    apply list_elem_of_In, list_elem_of_fmap in Hr as (r0 & -> & _).
    apply cleaned_coords_valid.
Qed.

(** What [clean_polygon] returns, when it returns a polygon. *)
Lemma clean_polygon_Some (p q : polygon) :
  clean_polygon sh p = Returns (Some q) ->
  q = cleaned_polygon p
  /\ 4 <= length (lon_lat <$> List.filter is_valid_coord (exterior p))
  /\ is_valid sh (Polygon q) = true.
Proof.
  rewrite clean_polygon_spec. cbn zeta. fold (cleaned_polygon p).
  destruct (length (lon_lat <$> List.filter is_valid_coord (exterior p)) <? 4)
    eqn:E; [discriminate|].
  apply Nat.ltb_ge in E.
  destruct (is_valid sh (Polygon (cleaned_polygon p))) eqn:Hv; [|discriminate].
  intros [= <-]. auto.
Qed.

Lemma clean_polygon_returns (p : polygon) :
  exists r, clean_polygon sh p = Returns r.
Proof. rewrite clean_polygon_spec. eauto. Qed.

Lemma clean_parts_spec (parts valid_parts : list polygon) :
  exists kept,
    clean_parts sh parts valid_parts = Returns (valid_parts ++ kept)
    /\ Forall (fun q => clean_rings q /\ is_valid sh (Polygon q) = true) kept.
Proof.
  revert valid_parts.
  induction parts as [|part parts IH]; intros valid_parts; cbn.
  - exists []. by rewrite app_nil_r.
  - destruct (clean_polygon_returns part) as [[c|] Hc]; rewrite Hc; cbn.
    + destruct (is_valid sh (Polygon c)) eqn:Hv; [|apply IH].
      destruct (IH (valid_parts ++ [c])) as (kept & -> & Hk).
      exists (c :: kept). rewrite <- app_assoc. split; [done|].
      constructor; [|done].
      apply clean_polygon_Some in Hc as (-> & Hlen & _).
      split; [by apply cleaned_polygon_clean | done].
    + apply IH.
Qed.

Lemma repair_if_invalid_valid (g r : geometry) :
  repair_if_invalid sh g = Returns (Some r) -> is_valid sh r = true.
Proof.
  unfold repair_if_invalid.
  destruct (is_valid sh g) eqn:Hg; cbn [negb].
  - by intros [= <-].
  - intros H. apply bind_Returns in H as ([r'|] & _ & H); [|discriminate].
    destruct (is_valid sh r') eqn:Hr; [|discriminate].
    by injection H as <-.
Qed.

Lemma repair_if_invalid_skip (g : geometry) :
  is_valid sh g = true -> repair_if_invalid sh g = Returns (Some g).
Proof. intros H. unfold repair_if_invalid. by rewrite H. Qed.

Lemma clean_rings_2d (q : polygon) :
  clean_rings q -> is_3d (exterior q) = false.
Proof.
  intros [(_ & _ & H) _]. apply is_3d_false.
  eapply Forall_impl; [exact H|]. intros c [_ Hc]. cbn in *. lia.
Qed.

Lemma closed_ring_id (r : ring) : ring_closed r = true -> closed_ring r = r.
Proof. intros H. destruct r; [done|]. unfold closed_ring. by rewrite H. Qed.

Lemma clean_ring_fixed (r : ring) :
  clean_ring r ->
  lon_lat <$> List.filter is_valid_coord r = r.
Proof.
  intros (_ & _ & Hall).
  induction Hall as [|c r [Hv Hl] _ IH]; cbn; [done|].
  rewrite Hv. cbn. rewrite IH. f_equal.
  destruct c as [|x [|y [|z rest]]]; cbn in Hl; try lia. done.
Qed.

Lemma clean_interiors_fixed (ints : list ring) :
  Forall clean_ring ints ->
  closed_ring <$>
    List.filter (fun r : ring => 4 <=? length r)
      ((fun r : ring => lon_lat <$> List.filter is_valid_coord r) <$> ints)
  = ints.
Proof.
  induction 1 as [|r ints Hr _ IH]; cbn -[Nat.leb]; [done|].
  rewrite clean_ring_fixed by done.
  replace (4 <=? length r) with true by (symmetry; apply Nat.leb_le, Hr).
  cbn -[Nat.leb]. rewrite IH. f_equal. apply closed_ring_id, Hr.
Qed.

(** Cleaning leaves a polygon with clean rings as it is. *)
Lemma cleaned_polygon_fixed (p : polygon) :
  clean_rings p -> cleaned_polygon p = p.
Proof.
  intros [Hext Hints]. destruct p as [ext ints].
  unfold cleaned_polygon. cbn [exterior interiors] in *.
  rewrite clean_interiors_fixed by done.
  rewrite clean_ring_fixed by done. f_equal. apply closed_ring_id, Hext.
Qed.

End Pipeline.

(** X1.  When [_validate_and_clean_coordinates] returns a geometry for a
    Polygon, it is a Polygon that shapely finds valid and all of whose
    rings are clean: at least four points, closed, every coordinate finite,
    within the longitude/latitude bounds and of exactly two ordinates.
    For a MultiPolygon it is a non-empty MultiPolygon of such polygons. *)
Theorem cleaned_geometry_is_clean (sh : Shapely) (g g' : geometry) :
  _validate_and_clean_coordinates sh g = Returns (Some g') ->
  match g with
  | Polygon p =>
      g' = Polygon (cleaned_polygon p)
      /\ clean_rings (cleaned_polygon p)
      /\ is_valid sh g' = true
  | MultiPolygon _ =>
      exists kept,
        g' = MultiPolygon kept /\ kept <> []
        /\ Forall (fun q => clean_rings q /\ is_valid sh (Polygon q) = true) kept
  | _ => g' = g
  end.
Proof.
  intros H. destruct g; cbn in H; try (by injection H as <-).
  - apply bind_Returns in H as ([q|] & Hq & H); [|discriminate].
    injection H as <-.
    apply clean_polygon_Some in Hq as (-> & Hlen & Hv).
    split; [done|]. split; [by apply cleaned_polygon_clean | done].
  - destruct (clean_parts_spec sh geoms []) as (kept & Hk & Hall).
    rewrite Hk in H. cbn in H.
    destruct kept as [|q kept]; [discriminate|].
    injection H as <-. exists (q :: kept). by repeat split.
Qed.

Lemma cleaned_geometry_is_clean_witness :
  let sh := Examples.shapely_table in
  _validate_and_clean_coordinates sh (Polygon Examples.square_3d)
  = Returns (Some (Polygon Examples.square))
  /\ Polygon Examples.square = Polygon (cleaned_polygon Examples.square_3d)
  /\ clean_rings (cleaned_polygon Examples.square_3d)
  /\ is_valid sh (Polygon Examples.square) = true.
Proof.
  cbn zeta.
  assert (_validate_and_clean_coordinates Examples.shapely_table
            (Polygon Examples.square_3d)
          = Returns (Some (Polygon Examples.square))) as H by reflexivity.
  split; [exact H|].
  exact (cleaned_geometry_is_clean _ _ _ H).
Defined.

(** The loop over the parts keeps, in order, those that are valid and
    larger than 1e-10. *)
Lemma repair_parts_spec (sh : Shapely) (parts valid_parts : list polygon) :
  repair_parts sh parts valid_parts
  = valid_parts
    ++ List.filter (fun part => is_valid sh (Polygon part)
                                && fgt (area sh (Polygon part)) near_zero) parts.
Proof.
  revert valid_parts.
  induction parts as [|part parts IH]; intros valid_parts;
    cbn [repair_parts List.filter]; [by rewrite app_nil_r|].
  destruct (is_valid sh (Polygon part) && fgt (area sh (Polygon part)) near_zero);
    [|apply IH].
  by rewrite IH, <- app_assoc.
Qed.

(** X3.  [_repair_geometry] never raises, whatever shapely raises inside
    it, and it returns a geometry in exactly three cases: [make_valid]
    gave a valid geometry, which is returned; [make_valid] gave an invalid
    Polygon of area not below 1e-10 whose simplification buffered by 0 is
    valid and of positive area, which is returned; or [make_valid] gave
    an invalid MultiPolygon, and the result is the MultiPolygon of those
    of its parts, in order, that are valid and larger than 1e-10, there
    being at least one.  That MultiPolygon is not checked again.  In
    every other case the result is [None]. *)
Theorem repair_geometry_result (sh : Shapely) (g : geometry) :
  exists r,
    _repair_geometry sh g = Returns r
    /\ forall g',
         r = Some g' <->
         (make_valid sh g = Returns g' /\ is_valid sh g' = true)
         \/ (exists p simplified,
               make_valid sh g = Returns (Polygon p)
               /\ is_valid sh (Polygon p) = false
               /\ flt (area sh (Polygon p)) near_zero = false
               /\ simplify sh (Polygon p) simplify_tolerance = Returns simplified
               /\ buffer sh simplified 0 = Returns g'
               /\ is_valid sh g' = true
               /\ fgt (area sh g') (of_int 0) = true)
         \/ (exists parts,
               make_valid sh g = Returns (MultiPolygon parts)
               /\ is_valid sh (MultiPolygon parts) = false
               /\ g' = MultiPolygon
                         (List.filter
                            (fun part => is_valid sh (Polygon part)
                                         && fgt (area sh (Polygon part)) near_zero)
                            parts)
               /\ List.filter
                    (fun part => is_valid sh (Polygon part)
                                 && fgt (area sh (Polygon part)) near_zero)
                    parts <> []).
Proof.
  unfold _repair_geometry.
  destruct (make_valid sh g) as [repaired|e] eqn:Hmv;
    cbn [mbind result_bind try_except].
  2:{ exists None. split; [done|]. intros g'. split; [discriminate|].
      intros [[? _]|[(? & ? & ? & _)|(? & ? & _)]]; discriminate. }
  destruct (is_valid sh repaired) eqn:Hv; cbn [negb].
  { exists (Some repaired). split; [done|]. intros g'. split.
    - intros [= <-]. by left.
    - intros [[[= <-] _]|[(p & s & [= ->] & Hp & _)|(ps & [= ->] & Hps & _)]];
        [done|congruence|congruence]. }
  destruct repaired as [| | | | |p|ps|];
    try (exists None; split; [done|]; intros g'; split; [discriminate|];
         intros [[[= <-] Hv']|[(? & ? & ? & _)|(? & ? & _)]];
         [congruence|discriminate|discriminate]).
  - destruct (flt (area sh (Polygon p)) near_zero) eqn:Harea.
    { exists None. split; [done|]. intros g'. split; [discriminate|].
      intros [[[= <-] Hv']|[(p' & s & [= <-] & _ & Ha & _)|(? & ? & _)]];
        [congruence|congruence|discriminate]. }
    destruct (simplify sh (Polygon p) simplify_tolerance) as [s|e] eqn:Hs;
      cbn [mbind result_bind try_except].
    2:{ exists None. split; [done|]. intros g'. split; [discriminate|].
        intros [[[= <-] Hv']|[(p' & s & [= <-] & _ & _ & Hs' & _)|(? & ? & _)]];
          [congruence|congruence|discriminate]. }
    destruct (buffer sh s 0) as [b|e] eqn:Hb; cbn [mbind result_bind try_except].
    2:{ exists None. split; [done|]. intros g'. split; [discriminate|].
        intros [[[= <-] Hv']
               |[(p' & s' & [= <-] & _ & _ & Hs' & Hb' & _)|(? & ? & _)]];
          [congruence|congruence|discriminate]. }
    destruct (is_valid sh b && fgt (area sh b) (of_int 0)) eqn:E.
    + exists (Some b). split; [done|]. intros g'. split.
      * intros [= <-]. right. left. exists p, s.
        apply andb_prop in E as [? ?]. by repeat split.
      * intros [[[= <-] Hv']
               |[(p' & s' & [= <-] & _ & _ & Hs' & Hb' & _)|(? & ? & _)]];
          [congruence|congruence|discriminate].
    + exists None. split; [done|]. intros g'. split; [discriminate|].
      intros [[[= <-] Hv']
             |[(p' & s' & [= <-] & _ & _ & Hs' & Hb' & Hv' & Ha')|(? & ? & _)]];
        [congruence| |discriminate].
      rewrite Hs in Hs'. injection Hs' as <-.
      rewrite Hb in Hb'. injection Hb' as <-.
      by rewrite Hv', Ha' in E.
  - cbn zeta. rewrite repair_parts_spec. cbn [app].
    destruct (List.filter _ ps) as [|q kept] eqn:E.
    + exists None. split; [done|]. intros g'. split; [discriminate|].
      intros [[[= <-] Hv']|[(? & ? & ? & _)|(ps' & [= <-] & _ & _ & Hne)]];
        [congruence|discriminate|]. by rewrite E in Hne.
    + exists (Some (MultiPolygon (q :: kept))). split; [done|].
      intros g'. split.
      * intros [= <-]. right. right. exists ps. by rewrite E.
      * intros [[[= <-] Hv']|[(? & ? & ? & _)|(ps' & [= <-] & _ & -> & _)]];
          [congruence|discriminate|]. by rewrite E.
Qed.

(** X4.  Whatever [safe_geometry_to_wkb] returns as an encoding is
    [shapely.wkb.dumps] of a geometry that shapely finds valid: no invalid
    geometry is ever encoded. *)
Theorem only_valid_geometries_are_encoded (sh : Shapely)
    (geometry : option geometry) (parcel_id : pyval) (wkb : list byte) :
  safe_geometry_to_wkb sh geometry parcel_id = Returns (Some wkb) ->
  exists g, is_valid sh g = true /\ wkb_dumps sh g = Returns wkb.
Proof.
  unfold safe_geometry_to_wkb. intros H.
  apply bind_Returns in H as (_ & _ & H).
  destruct geometry as [g|]; [|discriminate].
  apply try_except_None in H.
  destruct (is_empty g); [discriminate|].
  apply bind_Returns in H as ([g1|] & _ & H); [|discriminate].
  apply bind_Returns in H as ([g2|] & _ & H); [|discriminate].
  apply bind_Returns in H as ([g3|] & _ & H); [|discriminate].
  apply bind_Returns in H as ([g4|] & Hg4 & H); [|discriminate].
  apply repair_if_invalid_valid in Hg4.
  exists g4. split; [done|].
  destruct (wkb_dumps sh g4) as [w|e]; cbn in H.
  - by injection H as <-.
  - destruct (bool_decide _) in H; discriminate.
Qed.

Lemma only_valid_geometries_are_encoded_witness :
  let sh := Examples.shapely_table in
  safe_geometry_to_wkb sh (Some (Polygon Examples.square_3d)) PNone
  = Returns (Some [])
  /\ exists g, is_valid sh g = true /\ wkb_dumps sh g = Returns [].
Proof.
  cbn zeta.
  assert (safe_geometry_to_wkb Examples.shapely_table
            (Some (Polygon Examples.square_3d)) PNone = Returns (Some []))
    as H by reflexivity.
  split; [exact H|].
  exact (only_valid_geometries_are_encoded _ _ _ _ H).
Defined.

(** X5.  A Polygon that shapely finds valid is encoded in its cleaned form:
    the result is [None] when fewer than four valid exterior coordinates
    remain, when the cleaned polygon is invalid or when the encoder raises,
    and otherwise the encoding of the cleaned polygon, the later 3D-to-2D
    and repair steps leaving it untouched.  A valid Polygon whose rings
    are already clean is encoded as it is. *)
Theorem valid_polygon_is_encoded_cleaned (sh : Shapely) (p : polygon)
    (parcel_id : pyval) :
  is_valid sh (Polygon p) = true ->
  exterior p <> [] ->
  safe_geometry_to_wkb sh (Some (Polygon p)) parcel_id
  = Returns
      (if length (lon_lat <$> List.filter is_valid_coord (exterior p)) <? 4
       then None
       else if is_valid sh (Polygon (cleaned_polygon p)) then
              match wkb_dumps sh (Polygon (cleaned_polygon p)) with
              | Returns wkb => Some wkb
              | Raises _ => None
              end
            else None)
  /\ (clean_rings p ->
      safe_geometry_to_wkb sh (Some (Polygon p)) parcel_id
      = Returns match wkb_dumps sh (Polygon p) with
                | Returns wkb => Some wkb
                | Raises _ => None
                end).
Proof.
  intros Hv Hne.
  assert (safe_geometry_to_wkb sh (Some (Polygon p)) parcel_id
          = Returns
              (if length (lon_lat <$> List.filter is_valid_coord (exterior p)) <? 4
               then None
               else if is_valid sh (Polygon (cleaned_polygon p)) then
                      match wkb_dumps sh (Polygon (cleaned_polygon p)) with
                      | Returns wkb => Some wkb
                      | Raises _ => None
                      end
                    else None)) as Hmain.
  { unfold safe_geometry_to_wkb.
    replace (is_empty (Polygon p)) with false
      by (symmetry; cbn; by apply bool_decide_eq_false).
    rewrite (repair_if_invalid_skip sh (Polygon p)) by done.
    cbn [mbind result_bind].
    cbn [_validate_and_clean_coordinates]. rewrite clean_polygon_spec.
    cbn zeta. fold (cleaned_polygon p).
    destruct (length (lon_lat <$> List.filter is_valid_coord (exterior p)) <? 4)
      eqn:E.
    { by destruct (py_eq parcel_id _). }
    apply Nat.ltb_ge in E.
    destruct (is_valid sh (Polygon (cleaned_polygon p))) eqn:Hc.
    2:{ by destruct (py_eq parcel_id _). }
    cbn [mbind result_bind].
    rewrite convert_polygon_2d_noop
      by (by apply clean_rings_2d, cleaned_polygon_clean).
    cbn [mbind result_bind].
    rewrite (repair_if_invalid_skip sh (Polygon (cleaned_polygon p))) by done.
    cbn [mbind result_bind].
    destruct (wkb_dumps sh (Polygon (cleaned_polygon p))) as [w|e];
      destruct (py_eq parcel_id _); cbn; try done.
    all: by destruct (bool_decide _). }
  split; [exact Hmain|].
  intros Hclean. rewrite Hmain.
  rewrite (cleaned_polygon_fixed p Hclean), Hv.
  rewrite clean_ring_fixed by apply Hclean.
  destruct Hclean as [(Hlen & _) _].
  by replace (length (exterior p) <? 4) with false
    by (symmetry; by apply Nat.ltb_ge).
Qed.

Lemma valid_polygon_is_encoded_cleaned_witness :
  let sh := Examples.shapely_table in
  is_valid sh (Polygon Examples.square) = true
  /\ exterior Examples.square <> []
  /\ clean_rings Examples.square
  /\ safe_geometry_to_wkb sh (Some (Polygon Examples.square)) PNone
     = Returns (Some []).
Proof.
  cbn zeta.
  assert (is_valid Examples.shapely_table (Polygon Examples.square) = true)
    as H1 by reflexivity.
  assert (exterior Examples.square <> []) as H2 by discriminate.
  assert (clean_rings Examples.square) as H3.
  { split; [|constructor; [|constructor]];
      (split; [cbn; lia|]); (split; [reflexivity|]);
      repeat constructor. }
  repeat (split; [assumption|]).
  exact (proj2 (valid_polygon_is_encoded_cleaned _ _ PNone H1 H2) H3).
Defined.

(** X6.  On a Polygon or MultiPolygon whose rings have at least four
    points of at least two ordinates, [_convert_3d_to_2d] is idempotent:
    what it returns it returns unchanged when applied again. *)
Theorem convert_3d_to_2d_idempotent (sh : Shapely) (g g' : geometry) :
  match g with
  | Polygon p => well_formed p
  | MultiPolygon ps => Forall well_formed ps
  | _ => False
  end ->
  _convert_3d_to_2d sh g = Returns (Some g') ->
  _convert_3d_to_2d sh g' = Returns (Some g').
Proof.
  intros Hwf H. destruct g as [| | | | |p|ps|]; try done.
  - destruct (is_3d (exterior p)) eqn:E3.
    + unfold _convert_3d_to_2d in H. rewrite E3 in H. cbn [negb] in H.
      rewrite strip_polygon_flatten in H by done. cbn in H.
      injection H as <-.
      apply convert_polygon_2d_noop, is_3d_false.
      pose proof (flatten_polygon_2d p Hwf) as H2.
      unfold polygon_coords in H2. apply Forall_app in H2 as [H2 _].
      eapply Forall_impl; [exact H2|]. intros c Hc. cbn in *. lia.
    + rewrite convert_polygon_2d_noop in H by done. injection H as <-.
      by apply convert_polygon_2d_noop.
  - destruct (forallb (fun p => negb (is_3d (exterior p))) ps) eqn:E3.
    + rewrite convert_multipolygon_2d_noop in H by done. injection H as <-.
      by apply convert_multipolygon_2d_noop.
    + unfold _convert_3d_to_2d in H. rewrite E3 in H.
      rewrite convert_parts_spec in H by done. cbn [app mbind result_bind] in H.
      destruct (List.filter _ _) as [|q kept] eqn:Ek in H; [discriminate|].
      cbn in H. injection H as <-.
      apply convert_multipolygon_2d_noop, forallb_forall.
      intros q' Hq'. rewrite <- Ek in Hq'.
      apply filter_In in Hq' as [Hq' _].
      apply list_elem_of_In, list_elem_of_fmap in Hq' as (p & -> & Hp).
      rewrite Forall_forall in Hwf.
      pose proof (flatten_polygon_2d p (Hwf p Hp)) as H2.
      unfold polygon_coords in H2. apply Forall_app in H2 as [H2 _].
      rewrite is_3d_false; [done|].
      eapply Forall_impl; [exact H2|]. intros c Hc. cbn in *. lia.
Qed.

Lemma convert_3d_to_2d_idempotent_witness :
  let sh := Examples.shapely_table in
  well_formed Examples.square_3d
  /\ _convert_3d_to_2d sh (Polygon Examples.square_3d)
     = Returns (Some (Polygon Examples.square))
  /\ _convert_3d_to_2d sh (Polygon Examples.square)
     = Returns (Some (Polygon Examples.square)).
Proof.
  cbn zeta.
  assert (well_formed Examples.square_3d) as Hwf.
  { split; [|constructor; [|constructor]];
      (split; [cbn; lia|]); apply Forall_forall; intros c Hc;
      apply Nat.leb_le; revert c Hc; apply Forall_forall; repeat constructor. }
  assert (_convert_3d_to_2d Examples.shapely_table (Polygon Examples.square_3d)
          = Returns (Some (Polygon Examples.square))) as H by reflexivity.
  split; [exact Hwf|]. split; [exact H|].
  exact (convert_3d_to_2d_idempotent _ (Polygon Examples.square_3d) _ Hwf H).
Defined.

(* ================================================================== *)
(** * Further properties of the upsert loop *)
(* ================================================================== *)

Section Loop.
Context (sh : Shapely) (float_of_str : string -> result pyfloat) (db : Database).
Context (county_name : pyval).

Lemma read_fields_row_fields (idx : nat) (row : feature) :
  read_fields float_of_str county_name idx row
  = Returns (row_fields float_of_str county_name idx row).
Proof.
  unfold read_fields, row_fields, parsed.
  destruct (parse_numeric_returns float_of_str (row_get row "acreage" (PStr "")))
    as [a ->].
  destruct (parse_numeric_returns float_of_str
              (row_get row "property_value" (PStr ""))) as [v ->].
  reflexivity.
Qed.

Lemma update_set_keys (f : fields) (geom : list (string * cell)) (c : string) :
  geom.*1 = ["geometry"; "has_spatial_data"]%string ->
  c ∈ (update_set f geom).*1 ->
  c <> "global_parcel_uid"%string /\ c <> "county_parcel_id_num"%string.
Proof.
  intros Hg. unfold update_set. rewrite fmap_app, Hg. cbn.
  rewrite !elem_of_cons, elem_of_nil.
  intros H. split; intros ->; repeat destruct H as [H|H]; try discriminate; done.
Qed.

Lemma insert_values_uid (f : fields) (geom : list (string * cell)) :
  (list_to_map (insert_values f geom) : db_row) !! "global_parcel_uid"%string
  = Some (CVal (global_parcel_uid f)).
Proof. unfold insert_values. cbn [app list_to_map foldr]. apply lookup_insert_eq. Qed.

Lemma geometry_sets_flag (pre geom : list (string * cell)) :
  "has_spatial_data"%string ∉ pre.*1 ->
  (exists wkb, geom = spatial_columns wkb) \/ geom = non_spatial_columns ->
  exists b, has_spatial_data (list_to_map (pre ++ geom)) = Some b.
Proof.
  intros Hpre Hgeom. unfold has_spatial_data.
  rewrite list_to_map_app, lookup_union_r
    by by apply not_elem_of_list_to_map_1.
  destruct Hgeom as [[wkb ->]| ->]; by eexists.
Qed.

Lemma update_set_flag (f : fields) (geom : list (string * cell)) :
  (exists wkb, geom = spatial_columns wkb) \/ geom = non_spatial_columns ->
  exists b, has_spatial_data (list_to_map (update_set f geom)) = Some b.
Proof.
  apply geometry_sets_flag. apply (bool_decide_unpack _). by vm_compute.
Qed.

Lemma insert_values_flag (f : fields) (geom : list (string * cell)) :
  (exists wkb, geom = spatial_columns wkb) \/ geom = non_spatial_columns ->
  exists b, has_spatial_data (list_to_map (insert_values f geom)) = Some b.
Proof.
  unfold insert_values. rewrite app_assoc.
  apply geometry_sets_flag. apply (bool_decide_unpack _). by vm_compute.
Qed.

Lemma track_parcel_id_frame (uid : pyval) (st : locals) :
  exists st1,
    track_parcel_id uid st = (Returns tt, st1)
    /\ conn st1 = conn st
    /\ counters st1 = counters st
    /\ idsets st1 successful_parcel_ids = idsets st successful_parcel_ids
    /\ idsets st1 failed_parcel_ids = idsets st failed_parcel_ids.
Proof.
  unfold track_parcel_id, modify, mbind, M_bind.
  destruct uid; [by eexists|..];
    (destruct (parcel_id_count (add_id processed_parcel_ids _ st) !! _);
     by eexists).
Qed.

Ltac simp_state :=
  cbn -[safe_geometry_to_wkb existsb where_uid sql_update sql_insert
        update_set insert_values row_fields row_uid].

Ltac run_stmts :=
  unfold process_row, select_existing, resolve_geometry,
    execute, try_stmt, modify, lift, ret, mret, M_ret, mbind, M_bind;
  rewrite read_fields_row_fields;
  cbn [global_parcel_uid row_fields].

Ltac split_cases :=
  repeat match goal with
  | |- context [execute_raises ?d ?i ?s] =>
      destruct (execute_raises d i s) eqn:?; simp_state
  | |- context [existsb ?f ?l] => destruct (existsb f l) eqn:?; simp_state
  | |- context [geometry_of ?row] => destruct (geometry_of row) eqn:?; simp_state
  | |- context [is_empty ?g] => destruct (is_empty g) eqn:?; simp_state
  | |- context [safe_geometry_to_wkb ?a ?b ?c] =>
      destruct (safe_geometry_to_wkb a b c) as [[?|]|?] eqn:?; simp_state
  end.

(** What one row does to the state, whatever raises: the tracking
    dictionaries are as the tracking code left them, the committed table
    is untouched, the open transaction makes one step, and the counters
    move according to the outcome. *)
Lemma process_row_effect (idx : nat) (row : feature) (st : locals) :
  let st1 := (track_parcel_id (row_uid row) st).2 in
  let r := (process_row sh float_of_str db county_name idx row st).1 in
  let st' := (process_row sh float_of_str db county_name idx row st).2 in
  (parcel_id_count st' = parcel_id_count st1
   /\ idsets st' processed_parcel_ids = idsets st1 processed_parcel_ids
   /\ idsets st' duplicate_parcel_ids = idsets st1 duplicate_parcel_ids)
  /\ (committed (conn st') = committed (conn st)
      /\ table_step (row_uid row) (working (conn st)) (working (conn st')))
  /\ counters st' skipped_rows = counters st skipped_rows
  /\ match r with
     | Returns _ =>
         counters st' successful_inserts = S (counters st successful_inserts)
         /\ counters st' spatial_count + counters st' non_spatial_count
            = S (counters st spatial_count + counters st non_spatial_count)
         /\ row_uid row ∈ idsets st' successful_parcel_ids
     | Raises _ =>
         counters st' successful_inserts = counters st successful_inserts
         /\ counters st' spatial_count + counters st' non_spatial_count
            = counters st spatial_count + counters st non_spatial_count
         /\ working (conn st') = working (conn st)
     end.
Proof.
  cbn zeta.
  destruct (track_parcel_id_frame (row_uid row) st)
    as (st1 & Et & Hc & Hn & Hs & Hf).
  run_stmts. fold (row_uid row). rewrite Et. simp_state.
  rewrite ?Hc. split_cases.
  all: rewrite ?Hc, ?Hn.
  all: split; [done|].
  all: split;
    [split; [reflexivity|];
     first [ apply step_none
           | apply step_update;
               [ intros c; by apply update_set_keys
               | apply update_set_flag; first [by right | left; by eexists] ]
           | apply step_insert;
               [ done | apply insert_values_uid
               | apply insert_values_flag;
                   first [by right | left; by eexists] ] ]|].
  all: split; [reflexivity|].
  all: repeat split; try reflexivity; try lia;
    try (apply elem_of_union; left; by apply elem_of_singleton).
  all: repeat (case_decide; try discriminate); try lia; congruence.
Qed.

(** When no database call raises on a row, the row completes and the
    open transaction holds its upsert. *)
Lemma process_row_no_faults (idx : nat) (row : feature) (st : locals) :
  (forall site, execute_raises db idx site = false) ->
  (process_row sh float_of_str db county_name idx row st).1 = Returns tt
  /\ working (conn (process_row sh float_of_str db county_name idx row st).2)
     = upsert sh float_of_str county_name idx row (working (conn st)).
Proof.
  intros Hno.
  destruct (track_parcel_id_frame (row_uid row) st)
    as (st1 & Et & Hc & Hn & Hs & Hf).
  run_stmts. fold (row_uid row). rewrite Et, !Hno. simp_state.
  rewrite ?Hc. unfold upsert, geometry_columns, row_wkb.
  split_cases.
  all: rewrite ?Hc.
  all: try (split; reflexivity).
  all: exfalso.
  all: match goal with
       | H : safe_geometry_to_wkb ?s (Some ?g) ?u = Raises _ |- _ =>
           destruct (safe_geometry_to_wkb_returns s (Some g) u) as [? Hr];
             [by left | congruence]
       end.
Qed.

(** What the tracking code does to its dictionaries. *)
Lemma track_parcel_id_effect (uid : pyval) (st : locals) :
  let st1 := (track_parcel_id uid st).2 in
  uid <> PNone ->
  parcel_id_count st1
  = <[uid := S (default 0 (parcel_id_count st !! uid))]> (parcel_id_count st)
  /\ idsets st1 processed_parcel_ids = {[uid]} ∪ idsets st processed_parcel_ids
  /\ idsets st1 duplicate_parcel_ids
     = match parcel_id_count st !! uid with
       | Some _ => {[uid]} ∪ idsets st duplicate_parcel_ids
       | None => idsets st duplicate_parcel_ids
       end.
Proof.
  cbn zeta. intros Hne.
  unfold track_parcel_id, modify, mbind, M_bind.
  destruct uid; [done|..];
    cbn [parcel_id_count add_id];
    (destruct (parcel_id_count st !! _); by cbn).
Qed.

(** The slice of batch [k] continues the rows of the batches before it. *)
Lemma batch_slice (gdf : list feature) (k : nat) :
  let batch_start := k * batch_size in
  let batch_end := (batch_start + batch_size) `min` length gdf in
  take (S k * batch_size) gdf
  = take batch_start gdf ++ take (batch_end - batch_start) (drop batch_start gdf).
Proof.
  cbn zeta. unfold batch_size. rewrite take_take_drop.
  destruct (decide (k * 1000 + 1000 <= length gdf)).
  - f_equal. lia.
  - rewrite !take_ge; [done|lia|lia].
Qed.

(** Induction over a run: a property of the rows processed so far and the
    state that holds at the start, survives every row and every commit,
    holds of all the rows at the end. *)
Lemma run_induction (Q : list feature -> locals -> Prop)
    (gdf : list feature) (st0 : locals) :
  Q [] st0 ->
  (forall pre row st,
     Q pre st ->
     Q (pre ++ [row]) (row_step sh float_of_str db county_name (length pre) row st)) ->
  (forall pre batch_no st, Q pre st -> Q pre (commit_batch db batch_no st)) ->
  Q gdf (foldl (batch_step sh float_of_str db county_name gdf) st0
           (batch_starts (length gdf))).
Proof.
  intros H0 Hrow Hcommit.
  assert (forall rows pre st,
            Q pre st ->
            Q (pre ++ rows)
              (batch_rows sh float_of_str db county_name (length pre) rows st))
    as Hrows.
  { induction rows as [|row rows IH]; intros pre st HQ; cbn [batch_rows].
    - by rewrite app_nil_r.
    - replace (pre ++ row :: rows) with ((pre ++ [row]) ++ rows)
        by (by rewrite <- app_assoc).
      replace (S (length pre)) with (length (pre ++ [row]))
        by (rewrite length_app; cbn; lia).
      by apply IH, Hrow. }
  assert (forall m,
            m <= (length gdf + batch_size - 1) / batch_size ->
            Q (take (m * batch_size) gdf)
              (foldl (batch_step sh float_of_str db county_name gdf) st0
                 ((fun k => k * batch_size) <$> seq 0 m))) as Hm.
  { induction m as [|m IH]; intros Hle; [done|].
    rewrite seq_S, fmap_app, foldl_app. cbn [fmap list_fmap foldl Nat.add].
    unfold batch_step at 1.
    rewrite batch_slice. cbn zeta.
    apply Hcommit.
    assert (m * batch_size <= length gdf) as Hlen.
    { unfold batch_size in *.
      assert (S m * 1000 <= length gdf + 999); [|lia].
      pose proof (Nat.div_mod_eq (length gdf + 1000 - 1) 1000).
      pose proof (Nat.mod_upper_bound (length gdf + 1000 - 1) 1000).
      nia. }
    assert (m <= (length gdf + batch_size - 1) / batch_size) as Hm by lia.
    pose proof (Hrows
      (take ((m * batch_size + batch_size) `min` length gdf - m * batch_size)
         (drop (m * batch_size) gdf))
      (take (m * batch_size) gdf) _ (IH Hm)) as HQ.
    rewrite length_take in HQ.
    by replace ((m * batch_size) `min` length gdf) with (m * batch_size) in HQ
      by lia. }
  unfold batch_starts.
  specialize (Hm ((length gdf + batch_size - 1) / batch_size) (le_n _)).
  rewrite take_ge in Hm; [done|].
  unfold batch_size.
  pose proof (Nat.div_mod_eq (length gdf + 1000 - 1) 1000).
  pose proof (Nat.mod_upper_bound (length gdf + 1000 - 1) 1000).
  lia.
Qed.

End Loop.

(* ================================================================== *)
(** * Tables under UPDATE and INSERT *)
(* ================================================================== *)

Section Tables.

Lemma filter_fmap_commute {A} (p : A -> bool) (f : A -> A) (l : list A) :
  (forall x, p (f x) = p x) ->
  List.filter p (f <$> l) = f <$> List.filter p l.
Proof.
  intros Hp. induction l as [|x l IH]; cbn; [done|].
  rewrite Hp. destruct (p x); cbn; by rewrite IH.
Qed.

Lemma filter_none {A} (p : A -> bool) (l : list A) :
  existsb p l = false -> List.filter p l = [].
Proof.
  induction l as [|x l IH]; cbn; [done|].
  destruct (p x); cbn; [discriminate | exact IH].
Qed.

Lemma filter_some {A} (p : A -> bool) (l : list A) :
  existsb p l = true -> 1 <= length (List.filter p l).
Proof.
  induction l as [|x l IH]; cbn; [discriminate|].
  destruct (p x); cbn; [lia | exact IH].
Qed.

Lemma where_uid_ext (v : pyval) (r r' : db_row) :
  r' !! "global_parcel_uid"%string = r !! "global_parcel_uid"%string ->
  where_uid v r' = where_uid v r.
Proof. intros H. unfold where_uid. by rewrite H. Qed.

Lemma where_uid_cell (v : pyval) (r : db_row) :
  where_uid v r = true ->
  exists u, v = PStr u /\ r !! "global_parcel_uid"%string = Some (CVal (PStr u)).
Proof.
  unfold where_uid.
  destruct (r !! "global_parcel_uid"%string) as [[[|s| |]| |]|]; try discriminate.
  destruct v as [|t| |]; try discriminate.
  intros H. apply bool_decide_eq_true in H as ->. eauto.
Qed.

(** An UPDATE leaves the columns it does not set. *)
Lemma lookup_update_other (set : list (string * cell)) (r : db_row) (c : string) :
  c ∉ set.*1 -> (list_to_map set ∪ r) !! c = r !! c.
Proof.
  intros Hc. apply lookup_union_r. by apply not_elem_of_list_to_map_1.
Qed.

(** An UPDATE stores the values of its SET list. *)
Lemma lookup_update_set (set : list (string * cell)) (r : db_row)
    (c : string) (v : cell) :
  NoDup set.*1 -> (c, v) ∈ set -> (list_to_map set ∪ r) !! c = Some v.
Proof.
  intros Hnd Hin. apply lookup_union_Some_l. by apply elem_of_list_to_map_1.
Qed.

(** A row that already holds the values of the SET list is not changed. *)
Lemma update_fixed (set : list (string * cell)) (r : db_row) :
  (forall c v, (c, v) ∈ set -> r !! c = Some v) ->
  list_to_map set ∪ r = r.
Proof.
  intros H. apply map_eq. intros c.
  destruct ((list_to_map set : db_row) !! c) as [v|] eqn:E.
  - rewrite (lookup_union_Some_l _ _ _ _ E).
    symmetry. by apply H, elem_of_list_to_map_2.
  - by apply lookup_union_r.
Qed.

(** Of two UPDATEs with the same columns, the later one decides. *)
Lemma update_update (set1 set2 : list (string * cell)) (r : db_row) :
  set1.*1 = set2.*1 ->
  list_to_map set2 ∪ (list_to_map set1 ∪ r) = list_to_map set2 ∪ r.
Proof.
  intros Hk. apply map_eq. intros c.
  destruct ((list_to_map set2 : db_row) !! c) as [v|] eqn:E.
  - by rewrite !(lookup_union_Some_l _ _ _ _ E).
  - rewrite (lookup_union_r _ (list_to_map set1 ∪ r) _ E).
    rewrite (lookup_union_r _ r _ E).
    apply lookup_union_r, not_elem_of_list_to_map_1.
    rewrite Hk. by apply not_elem_of_list_to_map_2.
Qed.

Lemma sql_update_where (set : list (string * cell)) (uid v : pyval) (t : table) :
  "global_parcel_uid"%string ∉ set.*1 ->
  List.filter (where_uid v) (sql_update set uid t)
  = sql_update set uid (List.filter (where_uid v) t).
Proof.
  intros Hk. unfold sql_update. apply filter_fmap_commute.
  intros r. destruct (where_uid uid r); [|done].
  apply where_uid_ext. by apply lookup_update_other.
Qed.

Lemma sql_update_length (set : list (string * cell)) (uid : pyval) (t : table) :
  length (sql_update set uid t) = length t.
Proof. unfold sql_update. apply length_fmap. Qed.

Lemma step_keys (set : list (string * cell)) :
  (forall c, c ∈ set.*1 ->
     c <> "global_parcel_uid"%string /\ c <> "county_parcel_id_num"%string) ->
  ("global_parcel_uid"%string ∉ set.*1)
  /\ ("county_parcel_id_num"%string ∉ set.*1).
Proof. intros H. split; intros Hin; apply H in Hin as [? ?]; congruence. Qed.

(** The UNIQUE constraint survives every step of a row. *)
Lemma unique_uids_step (uid : pyval) (t t' : table) :
  table_step uid t t' -> unique_uids t -> unique_uids t'.
Proof.
  intros Hstep Hu u. specialize (Hu u). unfold rows_of in *.
  destruct Hstep as [t|set t Hk _|values t Hnone Huid _]; [done|..].
  - apply step_keys in Hk as [Hk _].
    by rewrite sql_update_where, sql_update_length.
  - unfold sql_insert. rewrite List.filter_app, length_app. cbn.
    destruct (where_uid (PStr u) (list_to_map values)) eqn:E; cbn; [|lia].
    apply where_uid_cell in E as (u' & [= <-] & E).
    rewrite Huid in E. injection E as ->.
    rewrite (filter_none _ _ Hnone). cbn. lia.
Qed.

Lemma extends_refl (t : table) : extends t t.
Proof.
  exists t, []. split; [by rewrite app_nil_r|].
  induction t; by constructor.
Qed.

(** Rows are never removed and keep their identifier columns. *)
Lemma extends_step (uid : pyval) (t0 t t' : table) :
  table_step uid t t' -> extends t0 t -> extends t0 t'.
Proof.
  intros Hstep (kept & added & Heq & Hkept).
  destruct Hstep as [t|set t Hk _|values t _ _ _]; subst t.
  - by exists kept, added.
  - apply step_keys in Hk as [Hk1 Hk2].
    exists (sql_update set uid kept), (sql_update set uid added).
    split; [unfold sql_update; by rewrite fmap_app|].
    unfold sql_update. apply Forall2_fmap_r.
    eapply Forall2_impl; [exact Hkept|].
    intros r r' [H1 H2]. cbn.
    destruct (where_uid uid r'); [|done].
    by rewrite !lookup_update_other.
  - exists kept, (added ++ [list_to_map values]).
    split; [unfold sql_insert; by rewrite <- app_assoc | done].
Qed.

End Tables.

(* ================================================================== *)
(** * Invariants of a run, whatever the database does *)
(* ================================================================== *)

Section Run.
Context (sh : Shapely) (float_of_str : string -> result pyfloat) (db : Database).
Context (county_name : pyval).

(** The two ways out of one iteration of the row loop. *)
Lemma row_step_cases (idx : nat) (row : feature) (st : locals) :
  let r := (process_row sh float_of_str db county_name idx row st).1 in
  let st1 := (process_row sh float_of_str db county_name idx row st).2 in
  let st' := row_step sh float_of_str db county_name idx row st in
  (r = Returns tt /\ st' = st1)
  \/ ((exists e, r = Raises e)
      /\ st' = set_conn (rollback (conn st1))
                 (incr skipped_rows (add_id failed_parcel_ids (row_uid row) st1))).
Proof.
  cbn zeta. unfold row_step.
  destruct (process_row sh float_of_str db county_name idx row st)
    as [[[]|e] st1]; cbn; [by left | right; eauto].
Qed.

(** A row that raises leaves the connection rolled back to the last
    commit, its identifier among the failed ones and one more skipped
    row. *)
Lemma row_step_raises (idx : nat) (row : feature) (st : locals) (e : exn) :
  (process_row sh float_of_str db county_name idx row st).1 = Raises e ->
  let st' := row_step sh float_of_str db county_name idx row st in
  conn st' = rollback (conn st)
  /\ row_uid row ∈ idsets st' failed_parcel_ids
  /\ counters st' skipped_rows = S (counters st skipped_rows).
Proof.
  intros Hr. cbn zeta.
  destruct (row_step_cases idx row st) as [[Hr' _]|[_ ->]]; [congruence|].
  destruct (process_row_effect sh float_of_str db county_name idx row st)
    as (_ & (Hc & _) & Hsk & _).
  cbn. unfold rollback. rewrite Hc, Hsk. split; [done|].
  split; [|done]. apply elem_of_union. left. by apply elem_of_singleton.
Qed.

Lemma row_step_tables (P : table -> Prop) (idx : nat) (row : feature)
    (st : locals) :
  (forall uid t t', table_step uid t t' -> P t -> P t') ->
  P (committed (conn st)) /\ P (working (conn st)) ->
  let st' := row_step sh float_of_str db county_name idx row st in
  P (committed (conn st')) /\ P (working (conn st')).
Proof.
  intros Hstep [Hc Hw]. cbn zeta.
  destruct (process_row_effect sh float_of_str db county_name idx row st)
    as (_ & (Hcm & Hts) & _).
  destruct (row_step_cases idx row st) as [[_ ->]|[_ ->]].
  - rewrite Hcm. split; [done|]. by eapply Hstep.
  - cbn. by rewrite Hcm.
Qed.

Lemma commit_batch_tables (P : table -> Prop) (batch_no : nat) (st : locals) :
  P (committed (conn st)) /\ P (working (conn st)) ->
  P (committed (conn (commit_batch db batch_no st)))
  /\ P (working (conn (commit_batch db batch_no st))).
Proof.
  intros [Hc Hw]. unfold commit_batch.
  by destruct (commit_raises db batch_no).
Qed.

(** A property of tables that every step of a row preserves holds of the
    stored table after the run when it held before. *)
Lemma run_tables (P : table -> Prop) (gdf : list feature) (t : table) :
  (forall uid t t', table_step uid t t' -> P t -> P t') ->
  P t ->
  P (committed (conn (update_parcel_data sh float_of_str db county_name gdf t))).
Proof.
  intros Hstep Ht. unfold update_parcel_data. cbn zeta.
  match goal with
  | |- context [foldl (batch_step _ _ _ _ ?g) _ _] =>
      apply (run_induction sh float_of_str db county_name
               (fun _ st => P (committed (conn st)) /\ P (working (conn st))) g)
  end.
  - by split.
  - intros pre row st H. by apply row_step_tables.
  - intros pre n st H. by apply commit_batch_tables.
Qed.

Lemma batch_step_settled (gdf : list feature) (st : locals) (batch_start : nat) :
  let st' := batch_step sh float_of_str db county_name gdf st batch_start in
  working (conn st') = committed (conn st').
Proof.
  cbn zeta. unfold batch_step, commit_batch. cbn zeta.
  by destruct (commit_raises db (batch_start / batch_size)).
Qed.

(** When the connection is closed nothing is left uncommitted. *)
Lemma run_settled (gdf : list feature) (t : table) :
  let st := update_parcel_data sh float_of_str db county_name gdf t in
  working (conn st) = committed (conn st).
Proof.
  cbn zeta. unfold update_parcel_data. cbn zeta.
  match goal with
  | |- context [foldl ?f ?s ?l] => destruct l as [|x starts _] using rev_ind
  end; [done|].
  rewrite foldl_app. cbn [foldl]. apply batch_step_settled.
Qed.

End Run.

(** X7.  Whatever call into the database raises, a run never removes a
    stored row and never changes the [global_parcel_uid] or
    [county_parcel_id_num] of one: the table after the run is the table
    before it, row by row with these two columns unchanged, followed by
    the rows inserted. *)
Theorem update_never_deletes (sh : Shapely)
    (float_of_str : string -> result pyfloat) (db : Database)
    (county_name : pyval) (gdf : list feature) (t : table) :
  extends t
    (committed (conn (update_parcel_data sh float_of_str db county_name gdf t))).
Proof.
  apply (run_tables sh float_of_str db county_name (extends t)).
  - intros uid t1 t2. apply extends_step.
  - apply extends_refl.
Qed.

(** X8.  Whatever call into the database raises, a table with at most one
    row for each string identifier has at most one row for each after the
    run: an INSERT is only ever issued for an identifier that the open
    transaction does not hold. *)
Theorem update_keeps_uids_unique (sh : Shapely)
    (float_of_str : string -> result pyfloat) (db : Database)
    (county_name : pyval) (gdf : list feature) (t : table) :
  unique_uids t ->
  unique_uids
    (committed (conn (update_parcel_data sh float_of_str db county_name gdf t))).
Proof.
  apply (run_tables sh float_of_str db county_name unique_uids).
  intros uid t1 t2. apply unique_uids_step.
Qed.

Lemma update_keeps_uids_unique_witness :
  unique_uids []
  /\ unique_uids (committed (conn Examples.run_duplicate)).
Proof.
  assert (unique_uids []) as H by (intros u; cbn; lia).
  split; [exact H|].
  exact (update_keeps_uids_unique Examples.shapely_table Examples.float_table
           reliable PNone [Examples.first_feature; Examples.second_feature] [] H).
Defined.

(** The counters of a run whose rollbacks succeed: every row is counted
    once, as successful or as skipped, and every successful row once, as
    spatial or as non-spatial. *)
Lemma run_counters (sh : Shapely)
    (float_of_str : string -> result pyfloat) (db : Database)
    (county_name : pyval) (gdf : list feature) (t : table) :
  let st := update_parcel_data sh float_of_str db county_name gdf t in
  counters st successful_inserts + counters st skipped_rows = length gdf
  /\ counters st spatial_count + counters st non_spatial_count
     = counters st successful_inserts.
Proof.
  cbn zeta. unfold update_parcel_data. cbn zeta.
  set (gdf' := if bool_decide ("county"%string ∉ columns gdf) && truthy county_name
               then set_county county_name gdf else gdf).
  assert (length gdf = length gdf') as ->.
  { subst gdf'.
    destruct (bool_decide ("county"%string ∉ columns gdf) && truthy county_name);
      [|done].
    unfold set_county. by rewrite length_fmap. }
  apply (run_induction sh float_of_str db county_name
           (fun pre st =>
              counters st successful_inserts + counters st skipped_rows
              = length pre
              /\ counters st spatial_count + counters st non_spatial_count
                 = counters st successful_inserts) gdf').
  - done.
  - intros pre row st [H1 H2]. rewrite length_app. cbn [length].
    destruct (process_row_effect sh float_of_str db county_name
                (length pre) row st) as (_ & _ & Hsk & Hout).
    destruct (row_step_cases sh float_of_str db county_name (length pre) row st)
      as [[Hr ->]|[[e Hr] ->]]; rewrite Hr in Hout.
    + destruct Hout as (Hs & Hsp & _). rewrite Hs, Hsk, Hsp. split; lia.
    + destruct Hout as (Hs & Hsp & _).
      cbn [counters set_conn incr add_id].
      repeat (case_decide; try discriminate; try congruence).
      rewrite Hs, Hsk, Hsp. split; lia.
  - intros pre n st H. unfold commit_batch.
    by destruct (commit_raises db n).
Qed.

(* ================================================================== *)
(** * The identifier bookkeeping *)
(* ================================================================== *)

Section Tracking.
Context (sh : Shapely) (float_of_str : string -> result pyfloat) (db : Database).
Context (county_name : pyval).

Lemma occurrences_snoc (uid x : pyval) (uids : list pyval) :
  occurrences uid (uids ++ [x])
  = occurrences uid uids + (if bool_decide (x = uid) then 1 else 0).
Proof.
  unfold occurrences. rewrite List.filter_app, length_app. cbn.
  by destruct (bool_decide (x = uid)).
Qed.

Lemma tracks_step (uids : list pyval) (x : pyval) (st : locals) :
  x <> PNone -> tracks uids st ->
  tracks (uids ++ [x]) (track_parcel_id x st).2.
Proof.
  intros Hx Ht uid. cbn zeta.
  destruct (track_parcel_id_effect x st Hx) as (Hc & Hp & Hd).
  rewrite Hc, Hp, Hd, occurrences_snoc.
  destruct (Ht uid) as (Hcu & Hpu & Hdu). destruct (Ht x) as (Hcx & Hpx & Hdx).
  cbn zeta in *.
  destruct (decide (x = uid)) as [->|Hne].
  - rewrite bool_decide_eq_true_2 by done.
    rewrite lookup_insert_eq, Hcu, Nat.add_1_r.
    destruct (occurrences uid uids) as [|n] eqn:En; cbn [default].
    + split; [done|]. split.
      * rewrite elem_of_union, elem_of_singleton. split; [lia | auto].
      * rewrite Hdu. lia.
    + split; [done|]. split.
      * rewrite elem_of_union, elem_of_singleton. split; [lia | auto].
      * rewrite elem_of_union, elem_of_singleton. split; [lia | auto].
  - rewrite bool_decide_eq_false_2 by done. rewrite lookup_insert_ne by done.
    rewrite Nat.add_0_r. split; [done|]. split.
    + rewrite elem_of_union, elem_of_singleton, Hpu.
      split; [intros [?|?]; [congruence | done] | auto].
    + destruct (parcel_id_count st !! x); [|done].
      rewrite elem_of_union, elem_of_singleton, Hdu.
      split; [intros [?|?]; [congruence | done] | auto].
Qed.

Lemma tracked_uids_snoc (pre : list feature) (row : feature) :
  tracked_uids (pre ++ [row])
  = tracked_uids pre
    ++ (if bool_decide (row_uid row = PNone) then [] else [row_uid row]).
Proof.
  unfold tracked_uids. rewrite fmap_app, List.filter_app. cbn.
  by destruct (bool_decide (row_uid row = PNone)).
Qed.

Lemma row_step_tracks (pre : list feature) (row : feature) (st : locals) :
  tracks (tracked_uids pre) st ->
  tracks (tracked_uids (pre ++ [row]))
    (row_step sh float_of_str db county_name (length pre) row st).
Proof.
  intros Ht.
  assert (tracks (tracked_uids (pre ++ [row]))
            (track_parcel_id (row_uid row) st).2) as Ht1.
  { rewrite tracked_uids_snoc.
    destruct (decide (row_uid row = PNone)) as [E|E].
    - rewrite bool_decide_eq_true_2, app_nil_r by done. by rewrite E.
    - rewrite bool_decide_eq_false_2 by done. by apply tracks_step. }
  destruct (process_row_effect sh float_of_str db county_name (length pre) row st)
    as ((Hc & Hp & Hd) & _).
  intros uid. specialize (Ht1 uid). cbn zeta in *.
  destruct (row_step_cases sh float_of_str db county_name (length pre) row st)
    as [[_ ->]|[_ ->]].
  - by rewrite Hc, Hp, Hd.
  - cbn [parcel_id_count idsets set_conn incr add_id].
    repeat (case_decide; try discriminate).
    by rewrite Hc, Hp, Hd.
Qed.

Lemma tracked_uids_set_county (gdf : list feature) :
  tracked_uids (set_county county_name gdf) = tracked_uids gdf.
Proof.
  unfold tracked_uids, set_county. rewrite <- list_fmap_compose.
  f_equal. apply list_fmap_ext. intros _ row _. cbn.
  unfold row_uid, row_get. cbn. by rewrite lookup_insert_ne.
Qed.

Lemma run_tracks (gdf : list feature) (t : table) :
  tracks (tracked_uids gdf)
    (update_parcel_data sh float_of_str db county_name gdf t).
Proof.
  unfold update_parcel_data. cbn zeta.
  set (gdf' := if bool_decide ("county"%string ∉ columns gdf) && truthy county_name
               then set_county county_name gdf else gdf).
  assert (tracked_uids gdf = tracked_uids gdf') as ->.
  { subst gdf'.
    destruct (bool_decide ("county"%string ∉ columns gdf) && truthy county_name);
      [|done].
    by rewrite tracked_uids_set_county. }
  apply (run_induction sh float_of_str db county_name
           (fun pre st => tracks (tracked_uids pre) st) gdf').
  - intros uid. cbn. split; [apply lookup_empty|].
    split; (split; [intros H; by apply not_elem_of_empty in H | lia]).
  - intros pre row st. apply row_step_tracks.
  - intros pre n st H. unfold commit_batch.
    by destruct (commit_raises db n).
Qed.

End Tracking.


(* ================================================================== *)
(** * Runs in which a rollback can raise *)
(* ================================================================== *)

Section AbortingRun.
Context (sh : Shapely) (float_of_str : string -> result pyfloat).
Context (db : Database) (rb : Rollbacks) (county_name : pyval).

(** A row either ends as in the run whose rollbacks succeed, or its
    handler's rollback raises. *)
Lemma aborting_row_step (idx : nat) (row : feature) (st : locals) :
  Aborting.row_step sh float_of_str db rb county_name idx row st
  = Returns (row_step sh float_of_str db county_name idx row st)
  \/ (Aborting.row_step sh float_of_str db rb county_name idx row st
      = Raises DatabaseError
      /\ row_rollback_raises rb idx = true
      /\ exists e, (process_row sh float_of_str db county_name idx row st).1
                   = Raises e).
Proof.
  unfold Aborting.row_step, row_step.
  destruct (process_row sh float_of_str db county_name idx row st)
    as [[[]|e] st1]; cbn [fst]; [by left|].
  destruct (row_rollback_raises rb idx); [right; eauto | by left].
Qed.

Lemma aborting_batch_rows (idx : nat) (rows : list feature) (st : locals) :
  (forall st',
     Aborting.batch_rows sh float_of_str db rb county_name idx rows st
     = Returns st' ->
     st' = batch_rows sh float_of_str db county_name idx rows st)
  /\ ((forall i, row_rollback_raises rb i = false) ->
      Aborting.batch_rows sh float_of_str db rb county_name idx rows st
      = Returns (batch_rows sh float_of_str db county_name idx rows st)).
Proof.
  revert idx st. induction rows as [|row rows IH]; intros idx st;
    cbn [Aborting.batch_rows batch_rows].
  - split; [by intros st' [= <-] | done].
  - destruct (aborting_row_step idx row st) as [->|(-> & Hrb & _)].
    + apply IH.
    + split; [discriminate|]. intros Hno. by rewrite Hno in Hrb.
Qed.

Lemma aborting_commit_batch (batch_no : nat) (st : locals) :
  (forall st',
     Aborting.commit_batch db rb batch_no st = Returns st' ->
     st' = commit_batch db batch_no st)
  /\ ((forall n, batch_rollback_raises rb n = false) ->
      Aborting.commit_batch db rb batch_no st
      = Returns (commit_batch db batch_no st)).
Proof.
  unfold Aborting.commit_batch, commit_batch.
  destruct (commit_raises db batch_no); [|split; [by intros st' [= <-] | done]].
  destruct (batch_rollback_raises rb batch_no) eqn:E.
  - split; [discriminate|]. intros Hno. by rewrite Hno in E.
  - split; [by intros st' [= <-] | done].
Qed.

Lemma aborting_batch_step (gdf : list feature) (st : locals) (batch_start : nat) :
  (forall st',
     Aborting.batch_step sh float_of_str db rb county_name gdf st batch_start
     = Returns st' ->
     st' = batch_step sh float_of_str db county_name gdf st batch_start)
  /\ ((forall i, row_rollback_raises rb i = false) ->
      (forall n, batch_rollback_raises rb n = false) ->
      Aborting.batch_step sh float_of_str db rb county_name gdf st batch_start
      = Returns (batch_step sh float_of_str db county_name gdf st batch_start)).
Proof.
  unfold Aborting.batch_step, batch_step. cbn zeta.
  match goal with
  | |- context [Aborting.batch_rows _ _ _ _ _ ?i ?rows ?s] =>
      destruct (aborting_batch_rows i rows s) as [Hret Hno];
      destruct (Aborting.batch_rows sh float_of_str db rb county_name i rows s)
        as [st1|e]
  end.
  - rewrite <- (Hret st1 eq_refl).
    destruct (aborting_commit_batch (batch_start / batch_size) st1)
      as [Hret' Hno'].
    split; [exact Hret' | intros _ Hn; by apply Hno'].
  - split; [discriminate|]. intros Hi _. by specialize (Hno Hi).
Qed.

Lemma aborting_loop (gdf : list feature) (starts : list nat) (st : locals) :
  (forall st',
     foldl (fun acc batch_start =>
              match acc with
              | Returns st =>
                  Aborting.batch_step sh float_of_str db rb county_name gdf st
                    batch_start
              | Raises e => Raises e
              end) (Returns st) starts = Returns st' ->
     st' = foldl (batch_step sh float_of_str db county_name gdf) st starts)
  /\ ((forall i, row_rollback_raises rb i = false) ->
      (forall n, batch_rollback_raises rb n = false) ->
      foldl (fun acc batch_start =>
               match acc with
               | Returns st =>
                   Aborting.batch_step sh float_of_str db rb county_name gdf st
                     batch_start
               | Raises e => Raises e
               end) (Returns st) starts
      = Returns (foldl (batch_step sh float_of_str db county_name gdf) st starts)).
Proof.
  revert st. induction starts as [|batch_start starts IH]; intros st;
    cbn [foldl].
  - split; [by intros st' [= <-] | done].
  - destruct (aborting_batch_step gdf st batch_start) as [Hret Hno].
    destruct (Aborting.batch_step sh float_of_str db rb county_name gdf st
                batch_start) as [st1|e].
    + rewrite <- (Hret st1 eq_refl). apply IH.
    + split.
      * intros st' H. exfalso. revert H. clear.
        induction starts as [|b starts IH]; cbn [foldl]; [discriminate | exact IH].
      * intros Hi Hn. by specialize (Hno Hi Hn).
Qed.

(** A run that reaches [conn.close()] ends in the state of the run whose
    rollbacks succeed, and every run does so when no rollback raises. *)
Lemma aborting_run (gdf : list feature) (t : table) :
  (forall st,
     Aborting.update_parcel_data sh float_of_str db rb county_name gdf t
     = Returns st ->
     st = update_parcel_data sh float_of_str db county_name gdf t)
  /\ ((forall i, row_rollback_raises rb i = false) ->
      (forall n, batch_rollback_raises rb n = false) ->
      Aborting.update_parcel_data sh float_of_str db rb county_name gdf t
      = Returns (update_parcel_data sh float_of_str db county_name gdf t)).
Proof.
  unfold Aborting.update_parcel_data, update_parcel_data. cbn zeta.
  apply aborting_loop.
Qed.

End AbortingRun.

(** X9.  Whatever calls to [execute] and [commit] raise, the counters add
    up in every run that reaches [conn.close()]: every row of the file
    is counted once, as successful or as skipped, and every successful
    row once, as spatial or as non-spatial.  A run reaches
    [conn.close()] when none of its [conn.rollback()] calls raises; a
    rollback that raises ends [update_parcel_data] with its exception. *)
Theorem counters_add_up (sh : Shapely)
    (float_of_str : string -> result pyfloat) (db : Database) (rb : Rollbacks)
    (county_name : pyval) (gdf : list feature) (t : table) :
  (forall st,
     Aborting.update_parcel_data sh float_of_str db rb county_name gdf t
     = Returns st ->
     counters st successful_inserts + counters st skipped_rows = length gdf
     /\ counters st spatial_count + counters st non_spatial_count
        = counters st successful_inserts)
  /\ ((forall idx, row_rollback_raises rb idx = false) ->
      (forall n, batch_rollback_raises rb n = false) ->
      exists st,
        Aborting.update_parcel_data sh float_of_str db rb county_name gdf t
        = Returns st).
Proof.
  destruct (aborting_run sh float_of_str db rb county_name gdf t)
    as [Hret Hno].
  split.
  - intros st Hst. rewrite (Hret st Hst). apply run_counters.
  - intros Hi Hn. eexists. by apply Hno.
Qed.

Lemma counters_add_up_witness :
  (forall idx, row_rollback_raises rollbacks_succeed idx = false)
  /\ (forall n, batch_rollback_raises rollbacks_succeed n = false)
  /\ exists st,
       Aborting.update_parcel_data Examples.shapely_table Examples.float_table
         MoreExamples.fault_at_second rollbacks_succeed PNone
         MoreExamples.three_parcels [] = Returns st
       /\ counters st successful_inserts + counters st skipped_rows = 3.
Proof.
  assert (forall idx, row_rollback_raises rollbacks_succeed idx = false) as H1
    by reflexivity.
  assert (forall n, batch_rollback_raises rollbacks_succeed n = false) as H2
    by reflexivity.
  split; [exact H1|]. split; [exact H2|].
  destruct (counters_add_up Examples.shapely_table Examples.float_table
              MoreExamples.fault_at_second rollbacks_succeed PNone
              MoreExamples.three_parcels []) as [Hsum Hret].
  destruct (Hret H1 H2) as [st Hst].
  exists st. split; [exact Hst | exact (proj1 (Hsum st Hst))].
Defined.

(** A rollback that raises: the INSERT of the second record fails, the
    rollback in its handler fails too, and the run ends there. *)
Example rollback_failure_ends_the_run :
  Aborting.update_parcel_data Examples.shapely_table Examples.float_table
    MoreExamples.fault_at_second MoreExamples.rollback_fails_at_second PNone
    MoreExamples.three_parcels [] = Raises DatabaseError.
Proof. by vm_compute. Qed.

(** X10.  Whatever calls to [execute] and [commit] raise, in every run
    that reaches [conn.close()] the bookkeeping counts the string
    identifiers of the input: [parcel_id_count] holds for each the number
    of rows that carry it, [processed_parcel_ids] those that occur, and
    [duplicate_parcel_ids] those that occur more than once.  A run
    reaches [conn.close()] when none of its [conn.rollback()] calls
    raises. *)
Theorem bookkeeping_counts_identifiers (sh : Shapely)
    (float_of_str : string -> result pyfloat) (db : Database) (rb : Rollbacks)
    (county_name : pyval) (gdf : list feature) (t : table) (u : string) :
  (forall st,
     Aborting.update_parcel_data sh float_of_str db rb county_name gdf t
     = Returns st ->
     let n := occurrences (PStr u) (tracked_uids gdf) in
     parcel_id_count st !! PStr u = match n with 0 => None | S _ => Some n end
     /\ (PStr u ∈ idsets st processed_parcel_ids <-> 1 <= n)
     /\ (PStr u ∈ idsets st duplicate_parcel_ids <-> 2 <= n))
  /\ ((forall idx, row_rollback_raises rb idx = false) ->
      (forall n, batch_rollback_raises rb n = false) ->
      exists st,
        Aborting.update_parcel_data sh float_of_str db rb county_name gdf t
        = Returns st).
Proof.
  destruct (aborting_run sh float_of_str db rb county_name gdf t)
    as [Hret Hno].
  split.
  - intros st Hst. rewrite (Hret st Hst).
    apply (run_tracks sh float_of_str db county_name gdf t (PStr u)).
  - intros Hi Hn. eexists. by apply Hno.
Qed.

Lemma bookkeeping_counts_identifiers_witness :
  (forall idx, row_rollback_raises rollbacks_succeed idx = false)
  /\ (forall n, batch_rollback_raises rollbacks_succeed n = false)
  /\ exists st,
       Aborting.update_parcel_data Examples.shapely_table Examples.float_table
         reliable rollbacks_succeed PNone
         [Examples.first_feature; Examples.second_feature] [] = Returns st
       /\ parcel_id_count st !! PStr "wy_001" = Some 2.
Proof.
  assert (forall idx, row_rollback_raises rollbacks_succeed idx = false) as H1
    by reflexivity.
  assert (forall n, batch_rollback_raises rollbacks_succeed n = false) as H2
    by reflexivity.
  split; [exact H1|]. split; [exact H2|].
  destruct (bookkeeping_counts_identifiers Examples.shapely_table
              Examples.float_table reliable rollbacks_succeed PNone
              [Examples.first_feature; Examples.second_feature] [] "wy_001")
    as [Hbook Hret].
  destruct (Hret H1 H2) as [st Hst].
  exists st. split; [exact Hst | exact (proj1 (Hbook st Hst))].
Defined.

(* ================================================================== *)
(** * Runs without database errors *)
(* ================================================================== *)

Section Upserts.
Context (sh : Shapely) (float_of_str : string -> result pyfloat).
Context (county_name : pyval).

Lemma geometry_columns_keys (row : feature) :
  (geometry_columns sh row).*1 = ["geometry"; "has_spatial_data"]%string.
Proof. unfold geometry_columns. by destruct (row_wkb sh row). Qed.

Lemma geometry_columns_cases (row : feature) :
  (exists wkb, geometry_columns sh row = spatial_columns wkb)
  \/ geometry_columns sh row = non_spatial_columns.
Proof.
  unfold geometry_columns. destruct (row_wkb sh row); [left; by eexists | by right].
Qed.

Lemma update_set_columns (f : fields) (geom : list (string * cell)) :
  geom.*1 = ["geometry"; "has_spatial_data"]%string ->
  (update_set f geom).*1 = update_columns.
Proof. intros Hg. unfold update_set. rewrite fmap_app, Hg. reflexivity. Qed.

Lemma update_columns_NoDup : NoDup update_columns.
Proof. apply (bool_decide_unpack _). by vm_compute. Qed.

Lemma insert_columns_NoDup (f : fields) (geom : list (string * cell)) :
  geom.*1 = ["geometry"; "has_spatial_data"]%string ->
  NoDup (insert_values f geom).*1.
Proof.
  intros Hg. unfold insert_values. rewrite !fmap_app, Hg.
  apply (bool_decide_unpack _). by vm_compute.
Qed.

Lemma update_columns_ids (c : string) :
  c ∈ update_columns ->
  c <> "global_parcel_uid"%string /\ c <> "county_parcel_id_num"%string.
Proof.
  intros Hc. split; intros ->; revert Hc; apply (bool_decide_unpack _); by vm_compute.
Qed.

(** The upsert of a row is one step of the open transaction. *)
Lemma upsert_step (idx : nat) (row : feature) (t : table) :
  table_step (row_uid row) t (upsert sh float_of_str county_name idx row t).
Proof.
  unfold upsert. destruct (existsb (where_uid (row_uid row)) t) eqn:E.
  - apply step_update; [|apply update_set_flag, geometry_columns_cases].
    intros c Hc. apply update_columns_ids.
    by rewrite update_set_columns in Hc by apply geometry_columns_keys.
  - apply step_insert;
      [done | apply insert_values_uid
      | apply insert_values_flag, geometry_columns_cases].
Qed.

Lemma upsert_all_snoc (idx : nat) (pre : list feature) (row : feature) (t : table) :
  upsert_all sh float_of_str county_name idx (pre ++ [row]) t
  = upsert sh float_of_str county_name (idx + length pre) row
      (upsert_all sh float_of_str county_name idx pre t).
Proof.
  revert idx t. induction pre as [|x pre IH]; intros idx t; cbn.
  - by rewrite Nat.add_0_r.
  - by rewrite IH, Nat.add_succ_r.
Qed.

Lemma upsert_all_app (idx : nat) (l1 l2 : list feature) (t : table) :
  upsert_all sh float_of_str county_name idx (l1 ++ l2) t
  = upsert_all sh float_of_str county_name (idx + length l1) l2
      (upsert_all sh float_of_str county_name idx l1 t).
Proof.
  revert idx t. induction l1 as [|x l1 IH]; intros idx t; cbn.
  - by rewrite Nat.add_0_r.
  - by rewrite IH, Nat.add_succ_r.
Qed.

(** Setting the county column of a file that has none changes nothing:
    the same county is the default of the read. *)
Lemma upsert_set_county (idx : nat) (row : feature) (t : table) :
  properties row !! "county"%string = None ->
  upsert sh float_of_str county_name idx
    (mk_feature (<["county"%string := county_name]> (properties row))
       (geometry_of row)) t
  = upsert sh float_of_str county_name idx row t.
Proof.
  intros Hc.
  set (row' := mk_feature (<["county"%string := county_name]> (properties row))
                 (geometry_of row)).
  assert (forall k d, k <> "county"%string -> row_get row' k d = row_get row k d)
    as Hget.
  { intros k d Hk. unfold row_get, row'. cbn. by rewrite lookup_insert_ne. }
  assert (row_get row' "county" county_name = row_get row "county" county_name)
    as Hcounty.
  { unfold row_get, row'. cbn. by rewrite lookup_insert_eq, Hc. }
  assert (row_uid row' = row_uid row) as Huid by (by apply Hget).
  assert (row_fields float_of_str county_name idx row'
          = row_fields float_of_str county_name idx row) as Hf.
  { unfold row_fields. rewrite Hcounty. by rewrite !Hget. }
  assert (geometry_columns sh row' = geometry_columns sh row) as Hg.
  { unfold geometry_columns, row_wkb. by rewrite Huid. }
  unfold upsert. by rewrite Huid, Hf, Hg.
Qed.

Lemma upsert_all_set_county (idx : nat) (gdf : list feature) (t : table) :
  Forall (fun row => properties row !! "county"%string = None) gdf ->
  upsert_all sh float_of_str county_name idx (set_county county_name gdf) t
  = upsert_all sh float_of_str county_name idx gdf t.
Proof.
  intros H. revert idx t.
  induction H as [|row gdf Hrow _ IH]; intros idx t; cbn; [done|].
  by rewrite upsert_set_county, IH.
Qed.

Lemma columns_absent (gdf : list feature) (k : string) :
  k ∉ columns gdf -> Forall (fun row => properties row !! k = None) gdf.
Proof.
  intros Hk. apply Forall_forall. intros row Hrow.
  apply not_elem_of_dom. intros Hd. apply Hk.
  unfold columns. apply elem_of_union_list.
  exists (dom (properties row)). split; [|done].
  apply list_elem_of_fmap. by exists row.
Qed.

End Upserts.

Section Reliable.
Context (sh : Shapely) (float_of_str : string -> result pyfloat) (db : Database).
Context (county_name : pyval).

Lemma batch_rows_app (idx : nat) (l1 l2 : list feature) (st : locals) :
  batch_rows sh float_of_str db county_name idx (l1 ++ l2) st
  = batch_rows sh float_of_str db county_name (idx + length l1) l2
      (batch_rows sh float_of_str db county_name idx l1 st).
Proof.
  revert idx st. induction l1 as [|x l1 IH]; intros idx st; cbn.
  - by rewrite Nat.add_0_r.
  - by rewrite IH, Nat.add_succ_r.
Qed.

Lemma row_step_committed (idx : nat) (row : feature) (st : locals) :
  committed (conn (row_step sh float_of_str db county_name idx row st))
  = committed (conn st).
Proof.
  destruct (process_row_effect sh float_of_str db county_name idx row st)
    as (_ & (Hc & _) & _).
  destruct (row_step_cases sh float_of_str db county_name idx row st)
    as [[_ ->]|[_ ->]]; [done | by cbn].
Qed.

Lemma batch_rows_committed (idx : nat) (rows : list feature) (st : locals) :
  committed (conn (batch_rows sh float_of_str db county_name idx rows st))
  = committed (conn st).
Proof.
  revert idx st. induction rows as [|row rows IH]; intros idx st; cbn; [done|].
  by rewrite IH, row_step_committed.
Qed.

Lemma row_step_no_faults (idx : nat) (row : feature) (st : locals) :
  (forall site, execute_raises db idx site = false) ->
  working (conn (row_step sh float_of_str db county_name idx row st))
  = upsert sh float_of_str county_name idx row (working (conn st)).
Proof.
  intros Hno.
  destruct (process_row_no_faults sh float_of_str db county_name idx row st Hno)
    as [Hr Hw].
  destruct (row_step_cases sh float_of_str db county_name idx row st)
    as [[_ ->]|[[e He] _]]; [done | congruence].
Qed.

Lemma batch_rows_no_faults (idx : nat) (rows : list feature) (st : locals) :
  (forall j site, idx <= j -> execute_raises db j site = false) ->
  working (conn (batch_rows sh float_of_str db county_name idx rows st))
  = upsert_all sh float_of_str county_name idx rows (working (conn st)).
Proof.
  revert idx st. induction rows as [|row rows IH]; intros idx st Hno; cbn;
    [done|].
  rewrite IH by (intros j site Hj; apply Hno; lia).
  rewrite row_step_no_faults; [done|]. intros site. by apply Hno.
Qed.

End Reliable.

(** X11.  A row that raises costs the batch everything written before it:
    [conn.rollback()] ends the whole open transaction, not the failing
    row's statements alone.  The row is marked failed, and when no later
    call raises, the transaction then holds the upserts of the rows after
    the failing one on top of the last commit, and nothing of the rows
    before it. *)
Theorem failed_row_discards_earlier_rows (sh : Shapely)
    (float_of_str : string -> result pyfloat) (db : Database)
    (county_name : pyval) (idx : nat) (pre : list feature) (row : feature)
    (post : list feature) (st : locals) (e : exn) :
  (process_row sh float_of_str db county_name (idx + length pre) row
     (batch_rows sh float_of_str db county_name idx pre st)).1 = Raises e ->
  (forall j site, idx + length pre < j -> execute_raises db j site = false) ->
  let st' := batch_rows sh float_of_str db county_name idx
               (pre ++ row :: post) st in
  committed (conn st') = committed (conn st)
  /\ working (conn st')
     = upsert_all sh float_of_str county_name (S (idx + length pre)) post
         (committed (conn st))
  /\ row_uid row
     ∈ idsets (batch_rows sh float_of_str db county_name idx (pre ++ [row]) st)
         failed_parcel_ids.
Proof.
  intros Hraise Hno. cbn zeta.
  split; [apply batch_rows_committed|].
  rewrite !batch_rows_app. cbn [batch_rows].
  set (st_k := batch_rows sh float_of_str db county_name idx pre st) in *.
  destruct (row_step_raises sh float_of_str db county_name _ row st_k e Hraise)
    as (Hconn & Hfailed & _).
  split; [|done].
  rewrite batch_rows_no_faults by (intros j site Hj; apply Hno; lia).
  rewrite Hconn. cbn. subst st_k. by rewrite batch_rows_committed.
Qed.

Lemma failed_row_discards_earlier_rows_witness :
  let db := MoreExamples.fault_at_second in
  let run := batch_rows Examples.shapely_table Examples.float_table db PNone 0 in
  let st := initial_locals [] in
  (process_row Examples.shapely_table Examples.float_table db PNone 1
     (Examples.parcel 2) (run [Examples.parcel 1] st)).1
  = Raises DatabaseError
  /\ (forall j site, 1 < j -> execute_raises db j site = false)
  /\ working (conn (run MoreExamples.three_parcels st))
     = upsert_all Examples.shapely_table Examples.float_table PNone 2
         [Examples.parcel 3] [].
Proof.
  cbn zeta.
  assert ((process_row Examples.shapely_table Examples.float_table
             MoreExamples.fault_at_second PNone (0 + length [Examples.parcel 1])
             (Examples.parcel 2)
             (batch_rows Examples.shapely_table Examples.float_table
                MoreExamples.fault_at_second PNone 0 [Examples.parcel 1]
                (initial_locals []))).1 = Raises DatabaseError) as H1
    by (vm_compute; reflexivity).
  assert (forall j site, 0 + length [Examples.parcel 1] < j ->
            execute_raises MoreExamples.fault_at_second j site = false) as H2.
  { intros j site Hj. cbn in *. rewrite bool_decide_eq_false_2 by lia. done. }
  split; [exact H1|]. split; [exact H2|].
  exact (proj1 (proj2 (failed_row_discards_earlier_rows
           Examples.shapely_table Examples.float_table
           MoreExamples.fault_at_second PNone 0 [Examples.parcel 1]
           (Examples.parcel 2) [Examples.parcel 3] (initial_locals [])
           DatabaseError H1 H2))).
Defined.

Section ReliableRun.
Context (sh : Shapely) (float_of_str : string -> result pyfloat).
Context (county_name : pyval).

(** With a database that never raises, the stored table after a run is
    the upsert of every row, in file order. *)
Lemma reliable_run_upserts (gdf : list feature) (t : table) :
  committed (conn (update_parcel_data sh float_of_str reliable county_name gdf t))
  = upsert_all sh float_of_str county_name 0 gdf t.
Proof.
  rewrite <- run_settled. unfold update_parcel_data. cbn zeta.
  set (gdf' := if bool_decide ("county"%string ∉ columns gdf) && truthy county_name
               then set_county county_name gdf else gdf).
  assert (upsert_all sh float_of_str county_name 0 gdf t
          = upsert_all sh float_of_str county_name 0 gdf' t) as ->.
  { subst gdf'.
    destruct (bool_decide ("county"%string ∉ columns gdf)) eqn:E; [|done].
    destruct (truthy county_name); [|done]. cbn.
    apply bool_decide_eq_true in E.
    symmetry. by apply upsert_all_set_county, columns_absent. }
  apply (run_induction sh float_of_str reliable county_name
           (fun pre st =>
              working (conn st) = upsert_all sh float_of_str county_name 0 pre t)
           gdf').
  - done.
  - intros pre row st H. rewrite upsert_all_snoc, <- H.
    by apply row_step_no_faults.
  - intros pre n st H. by cbn.
Qed.

(** ** Rows stored under one identifier *)

Lemma rows_of_where (u : string) (t : table) :
  Forall (fun r => where_uid (PStr u) r = true) (rows_of u t).
Proof.
  apply Forall_forall. intros r Hr.
  by apply list_elem_of_In, filter_In in Hr as [_ Hr].
Qed.

Lemma where_uid_other (u : string) (uid : pyval) (r : db_row) :
  where_uid (PStr u) r = true -> uid <> PStr u -> where_uid uid r = false.
Proof.
  intros Hu Hne. destruct (where_uid uid r) eqn:E; [|done].
  apply where_uid_cell in Hu as (u1 & [= <-] & H1).
  apply where_uid_cell in E as (u2 & -> & H2).
  rewrite H1 in H2. by injection H2 as ->.
Qed.

Lemma sql_update_none (set : list (string * cell)) (uid : pyval) (l : table) :
  Forall (fun r => where_uid uid r = false) l -> sql_update set uid l = l.
Proof.
  unfold sql_update. induction 1 as [|r l Hr _ IH]; cbn; [done|].
  by rewrite Hr, IH.
Qed.

Lemma sql_update_all (set : list (string * cell)) (uid : pyval) (l : table) :
  Forall (fun r => where_uid uid r = true) l ->
  sql_update set uid l = (fun r : db_row => list_to_map set ∪ r) <$> l.
Proof.
  unfold sql_update. induction 1 as [|r l Hr _ IH]; cbn; [done|].
  by rewrite Hr, IH.
Qed.

Lemma upsert_keys (idx : nat) (row : feature) :
  "global_parcel_uid"%string
  ∉ (update_set (row_fields float_of_str county_name idx row)
       (geometry_columns sh row)).*1.
Proof.
  rewrite update_set_columns by apply geometry_columns_keys.
  intros H. by apply update_columns_ids in H as [? _].
Qed.

(** A row with another identifier leaves the rows of [u] alone. *)
Lemma upsert_rows_of_other (u : string) (idx : nat) (row : feature) (t : table) :
  row_uid row <> PStr u ->
  rows_of u (upsert sh float_of_str county_name idx row t) = rows_of u t.
Proof.
  intros Hne. unfold upsert, rows_of.
  destruct (existsb (where_uid (row_uid row)) t) eqn:E.
  - rewrite sql_update_where by apply upsert_keys.
    apply sql_update_none.
    eapply Forall_impl; [apply rows_of_where|].
    intros r Hr. exact (where_uid_other u _ r Hr Hne).
  - unfold sql_insert. rewrite List.filter_app. cbn [List.filter].
    match goal with
    | |- context [where_uid (PStr u) ?x] =>
        destruct (where_uid (PStr u) x) eqn:Ew
    end; [|by rewrite app_nil_r].
    apply where_uid_cell in Ew as (u' & [= <-] & Ew).
    rewrite insert_values_uid in Ew. cbn [global_parcel_uid row_fields] in Ew.
    fold (row_uid row) in Ew. congruence.
Qed.

Lemma existsb_rows_of (u : string) (t : table) :
  existsb (where_uid (PStr u)) t = true <-> rows_of u t <> [].
Proof.
  unfold rows_of. split.
  - intros H Hnil. apply filter_some in H. rewrite Hnil in H. cbn in H. lia.
  - intros H. destruct (existsb (where_uid (PStr u)) t) eqn:E; [done|].
    by apply filter_none in E.
Qed.

(** The rows of [u] after the upsert of a row carrying [u]. *)
Lemma upsert_rows_of_self (u : string) (idx : nat) (row : feature) (t : table) :
  row_uid row = PStr u ->
  let set := update_set (row_fields float_of_str county_name idx row)
               (geometry_columns sh row) in
  let values := insert_values (row_fields float_of_str county_name idx row)
                  (geometry_columns sh row) in
  rows_of u (upsert sh float_of_str county_name idx row t)
  = match rows_of u t with
    | [] => [list_to_map values]
    | _ :: _ => (fun r : db_row => list_to_map set ∪ r) <$> rows_of u t
    end.
Proof.
  intros Hu. cbn zeta. unfold upsert. rewrite Hu.
  destruct (existsb (where_uid (PStr u)) t) eqn:E.
  - pose proof (proj1 (existsb_rows_of u t) E) as Hne.
    unfold rows_of in *. rewrite sql_update_where by apply upsert_keys.
    rewrite sql_update_all by apply rows_of_where.
    by destruct (List.filter (where_uid (PStr u)) t).
  - unfold rows_of. rewrite (filter_none _ _ E).
    unfold sql_insert. rewrite List.filter_app, (filter_none _ _ E).
    cbn [List.filter app].
    match goal with
    | |- context [where_uid (PStr u) ?x] =>
        replace (where_uid (PStr u) x) with true; [done|]
    end.
    symmetry. unfold where_uid. rewrite insert_values_uid.
    cbn [global_parcel_uid row_fields]. fold (row_uid row). rewrite Hu.
    by apply bool_decide_eq_true.
Qed.

Lemma upsert_set_in_values (f : fields) (geom : list (string * cell))
    (c : string) (v : cell) :
  (c, v) ∈ update_set f geom -> (c, v) ∈ insert_values f geom.
Proof.
  intros H. unfold insert_values. do 2 apply list_elem_of_further. exact H.
Qed.

(** After the upsert of a row carrying [u] there is a row for [u], and
    every row of [u] holds the row's values. *)
Lemma upsert_self_stores (u : string) (idx : nat) (row : feature) (t : table) :
  row_uid row = PStr u ->
  rows_of u (upsert sh float_of_str county_name idx row t) <> []
  /\ Forall (stores (update_set (row_fields float_of_str county_name idx row)
                       (geometry_columns sh row)))
       (rows_of u (upsert sh float_of_str county_name idx row t)).
Proof.
  intros Hu. rewrite (upsert_rows_of_self u idx row t Hu).
  destruct (rows_of u t) as [|r l].
  - split; [done|]. constructor; [|constructor].
    intros c v Hin. apply elem_of_list_to_map_1.
    + apply insert_columns_NoDup, geometry_columns_keys.
    + by apply upsert_set_in_values.
  - split; [done|]. apply Forall_fmap, Forall_forall. intros r' _ c v Hin. cbv beta.
    apply lookup_update_set; [|done].
    rewrite update_set_columns by apply geometry_columns_keys.
    apply update_columns_NoDup.
Qed.

Lemma upsert_all_rows_of_other (u : string) (idx : nat) (rows : list feature)
    (t : table) :
  Forall (fun row => row_uid row <> PStr u) rows ->
  rows_of u (upsert_all sh float_of_str county_name idx rows t) = rows_of u t.
Proof.
  intros H. revert idx t.
  induction H as [|row rows Hrow _ IH]; intros idx t; cbn [upsert_all]; [done|].
  by rewrite IH, upsert_rows_of_other.
Qed.

(** The rows of [u] hold the values of the last row that carries [u]. *)
Lemma upsert_all_stores_last (u : string) (pre : list feature) (last : feature)
    (post : list feature) (t : table) :
  row_uid last = PStr u ->
  Forall (fun row => row_uid row <> PStr u) post ->
  let t' := upsert_all sh float_of_str county_name 0 (pre ++ last :: post) t in
  rows_of u t' <> []
  /\ Forall (stores (update_set
                       (row_fields float_of_str county_name (length pre) last)
                       (geometry_columns sh last)))
       (rows_of u t').
Proof.
  intros Hu Hpost. cbn zeta.
  rewrite upsert_all_app. cbn [upsert_all Nat.add].
  rewrite upsert_all_rows_of_other by done.
  by apply upsert_self_stores.
Qed.

Lemma upsert_all_unique (idx : nat) (rows : list feature) (t : table) :
  unique_uids t ->
  unique_uids (upsert_all sh float_of_str county_name idx rows t).
Proof.
  revert idx t. induction rows as [|row rows IH]; intros idx t Hu; cbn; [done|].
  apply IH. eapply unique_uids_step; [apply upsert_step | done].
Qed.

End ReliableRun.

(** X12.  Last write wins.  When no database call raises and the table
    holds at most one row for each identifier, the stored table after the
    run has exactly one row for an identifier of the input, and every
    column an UPDATE sets (the attribute columns, [geometry] and
    [has_spatial_data]) holds in it the value of the last feature of the
    file that carries the identifier. *)
Theorem last_write_wins (sh : Shapely) (float_of_str : string -> result pyfloat)
    (county_name : pyval) (u : string) (pre : list feature) (last : feature)
    (post : list feature) (t : table) :
  unique_uids t ->
  row_uid last = PStr u ->
  Forall (fun row => row_uid row <> PStr u) post ->
  let st := update_parcel_data sh float_of_str reliable county_name
              (pre ++ last :: post) t in
  exists r,
    rows_of u (committed (conn st)) = [r]
    /\ stores (update_set (row_fields float_of_str county_name (length pre) last)
                 (geometry_columns sh last)) r.
Proof.
  intros Hun Hu Hpost. cbn zeta. rewrite reliable_run_upserts.
  destruct (upsert_all_stores_last sh float_of_str county_name u pre last post t
              Hu Hpost) as [Hne Hall].
  pose proof (upsert_all_unique sh float_of_str county_name 0
                (pre ++ last :: post) t Hun u) as Hlen.
  cbn zeta in *.
  destruct (rows_of u (upsert_all sh float_of_str county_name 0
                         (pre ++ last :: post) t)) as [|r [|r' l]];
    [done | | cbn in Hlen; lia].
  exists r. split; [done|]. by apply Forall_cons in Hall as [? _].
Qed.

Lemma last_write_wins_witness :
  unique_uids []
  /\ row_uid Examples.second_feature = PStr "wy_001"
  /\ Forall (fun row => row_uid row <> PStr "wy_001") []
  /\ exists r,
       rows_of "wy_001" (committed (conn Examples.run_duplicate)) = [r]
       /\ stores (update_set (row_fields Examples.float_table PNone 1
                                Examples.second_feature)
                    (geometry_columns Examples.shapely_table
                       Examples.second_feature)) r.
Proof.
  assert (unique_uids []) as H1 by (intros u; cbn; lia).
  assert (row_uid Examples.second_feature = PStr "wy_001") as H2 by reflexivity.
  assert (Forall (fun row => row_uid row <> PStr "wy_001") []) as H3
    by constructor.
  split; [exact H1|]. split; [exact H2|]. split; [exact H3|].
  exact (last_write_wins Examples.shapely_table Examples.float_table PNone
           "wy_001" [Examples.first_feature] Examples.second_feature [] []
           H1 H2 H3).
Defined.

Section WrittenOnce.
Context (sh : Shapely) (float_of_str : string -> result pyfloat).
Context (county_name : pyval).

Lemma insert_values_parcel_id (f : fields) (geom : list (string * cell)) :
  (list_to_map (insert_values f geom) : db_row) !! "county_parcel_id_num"%string
  = Some (CVal (parcel_id f)).
Proof.
  unfold insert_values. cbn [app list_to_map foldr fst snd].
  rewrite lookup_insert_ne by done. apply lookup_insert_eq.
Qed.

(** Once there is a row for [u], later rows do not change a column that
    no UPDATE sets. *)
Lemma upsert_keeps_column (u : string) (c : string) (v : option cell)
    (idx : nat) (row : feature) (t : table) :
  c ∉ update_columns ->
  rows_of u t <> [] ->
  Forall (fun r : db_row => r !! c = v) (rows_of u t) ->
  rows_of u (upsert sh float_of_str county_name idx row t) <> []
  /\ Forall (fun r : db_row => r !! c = v)
       (rows_of u (upsert sh float_of_str county_name idx row t)).
Proof.
  intros Hc Hne Hall.
  destruct (decide (row_uid row = PStr u)) as [Hu|Hu].
  - rewrite (upsert_rows_of_self sh float_of_str county_name u idx row t Hu).
    destruct (rows_of u t) as [|r l] eqn:E; [done|]. split; [done|].
    apply Forall_fmap. eapply Forall_impl; [exact Hall|].
    intros r' Hr'. unfold compose. cbv beta in *.
    rewrite lookup_update_other; [done|].
    by rewrite update_set_columns by apply geometry_columns_keys.
  - by rewrite upsert_rows_of_other.
Qed.

Lemma upsert_all_keeps_column (u : string) (c : string) (v : option cell)
    (idx : nat) (rows : list feature) (t : table) :
  c ∉ update_columns ->
  rows_of u t <> [] ->
  Forall (fun r : db_row => r !! c = v) (rows_of u t) ->
  rows_of u (upsert_all sh float_of_str county_name idx rows t) <> []
  /\ Forall (fun r : db_row => r !! c = v)
       (rows_of u (upsert_all sh float_of_str county_name idx rows t)).
Proof.
  intros Hc. revert idx t.
  induction rows as [|row rows IH]; intros idx t Hne Hall; cbn [upsert_all];
    [done|].
  destruct (upsert_keeps_column u c v idx row t Hc Hne Hall) as [Hne' Hall'].
  by apply IH.
Qed.

End WrittenOnce.

(** X13.  [county_parcel_id_num] is written once.  When no database call
    raises and the table has no row for an identifier, the row stored for
    it after the run carries the county-local identifier of the first
    feature of the file with that identifier, whatever later features with
    the same identifier say: no UPDATE sets the column. *)
Theorem county_parcel_id_is_written_once (sh : Shapely)
    (float_of_str : string -> result pyfloat) (county_name : pyval)
    (u : string) (before : list feature) (first : feature)
    (rest : list feature) (t : table) :
  rows_of u t = [] ->
  row_uid first = PStr u ->
  Forall (fun row => row_uid row <> PStr u) before ->
  let st := update_parcel_data sh float_of_str reliable county_name
              (before ++ first :: rest) t in
  rows_of u (committed (conn st)) <> []
  /\ Forall (fun r : db_row =>
               r !! "county_parcel_id_num"%string
               = Some (CVal (parcel_id (row_fields float_of_str county_name
                                          (length before) first))))
       (rows_of u (committed (conn st))).
Proof.
  intros Hnone Hu Hbefore. cbn zeta. rewrite reliable_run_upserts.
  rewrite upsert_all_app. cbn [upsert_all Nat.add].
  apply upsert_all_keeps_column.
  - apply (bool_decide_unpack _). by vm_compute.
  - rewrite (upsert_rows_of_self sh float_of_str county_name u _ first _ Hu).
    by rewrite upsert_all_rows_of_other, Hnone by done.
  - rewrite (upsert_rows_of_self sh float_of_str county_name u _ first _ Hu).
    rewrite upsert_all_rows_of_other, Hnone by done.
    constructor; [apply insert_values_parcel_id | constructor].
Qed.

Lemma county_parcel_id_is_written_once_witness :
  rows_of "wy_001" [] = []
  /\ row_uid Examples.first_feature = PStr "wy_001"
  /\ Forall (fun row => row_uid row <> PStr "wy_001") []
  /\ Forall (fun r : db_row =>
               r !! "county_parcel_id_num"%string = Some (CVal (PStr "A-1")))
       (rows_of "wy_001" (committed (conn Examples.run_duplicate))).
Proof.
  assert (rows_of "wy_001" [] = []) as H1 by reflexivity.
  assert (row_uid Examples.first_feature = PStr "wy_001") as H2 by reflexivity.
  assert (Forall (fun row => row_uid row <> PStr "wy_001") []) as H3
    by constructor.
  split; [exact H1|]. split; [exact H2|]. split; [exact H3|].
  exact (proj2 (county_parcel_id_is_written_once Examples.shapely_table
                  Examples.float_table PNone "wy_001" [] Examples.first_feature
                  [Examples.second_feature] [] H1 H2 H3)).
Defined.

Section Idempotence.
Context (sh : Shapely) (float_of_str : string -> result pyfloat).
Context (county_name : pyval).

Lemma row_update_where (idx : nat) (row : feature) (v : pyval) (r : db_row) :
  where_uid v (row_update sh float_of_str county_name idx row r) = where_uid v r.
Proof.
  unfold row_update. destruct (where_uid (row_uid row) r); [|done].
  apply where_uid_ext, lookup_update_other, upsert_keys.
Qed.

Lemma existsb_fmap_where (f : db_row -> db_row) (v : pyval) (t : table) :
  (forall r, where_uid v (f r) = where_uid v r) ->
  existsb (where_uid v) (f <$> t) = existsb (where_uid v) t.
Proof.
  intros Hf. induction t as [|r t IH]; cbn; [done|]. by rewrite Hf, IH.
Qed.

(** When every row of the file has its row in the table, the run only
    updates. *)
Lemma upsert_all_updates (idx : nat) (rows : list feature) (t : table) :
  Forall (fun row => existsb (where_uid (row_uid row)) t = true) rows ->
  upsert_all sh float_of_str county_name idx rows t
  = row_updates sh float_of_str county_name idx rows <$> t.
Proof.
  revert idx t. induction rows as [|row rows IH]; intros idx t Hall;
    cbn [upsert_all row_updates].
  - by rewrite list_fmap_id.
  - apply Forall_cons in Hall as [Hrow Hall].
    unfold upsert at 1. rewrite Hrow.
    change (sql_update _ (row_uid row) t)
      with (row_update sh float_of_str county_name idx row <$> t).
    rewrite IH.
    + by rewrite <- list_fmap_compose.
    + eapply Forall_impl; [exact Hall|]. intros row' H'. cbv beta in *.
      rewrite existsb_fmap_where; [done|]. intros r. apply row_update_where.
Qed.

Lemma row_updates_none (idx : nat) (rows : list feature) (r : db_row) :
  Forall (fun row => where_uid (row_uid row) r = false) rows ->
  row_updates sh float_of_str county_name idx rows r = r.
Proof.
  intros H. revert idx.
  induction H as [|row rows Hrow _ IH]; intros idx; cbn [row_updates]; [done|].
  unfold row_update. by rewrite Hrow, IH.
Qed.

Lemma row_updates_app (idx : nat) (l1 l2 : list feature) (r : db_row) :
  row_updates sh float_of_str county_name idx (l1 ++ l2) r
  = row_updates sh float_of_str county_name (idx + length l1) l2
      (row_updates sh float_of_str county_name idx l1 r).
Proof.
  revert idx r. induction l1 as [|x l1 IH]; intros idx r; cbn.
  - by rewrite Nat.add_0_r.
  - by rewrite IH, Nat.add_succ_r.
Qed.

(** A stored row after some updates: itself, or itself under one SET list. *)
Lemma row_updates_shape (idx : nat) (rows : list feature) (r : db_row) :
  row_updates sh float_of_str county_name idx rows r = r
  \/ exists set,
       set.*1 = update_columns
       /\ row_updates sh float_of_str county_name idx rows r
          = list_to_map set ∪ r.
Proof.
  revert idx. induction rows as [|row rows IH] using rev_ind; intros idx;
    [by left|].
  rewrite row_updates_app. cbn [row_updates].
  unfold row_update.
  destruct (where_uid (row_uid row) _); [|apply IH].
  right. eexists. split; [by apply update_set_columns, geometry_columns_keys|].
  destruct (IH idx) as [->|(set & Hk & ->)]; [done|].
  apply update_update.
  by rewrite Hk, update_set_columns by apply geometry_columns_keys.
Qed.

Lemma row_updates_where (idx : nat) (rows : list feature) (v : pyval)
    (r : db_row) :
  where_uid v (row_updates sh float_of_str county_name idx rows r)
  = where_uid v r.
Proof.
  revert idx r. induction rows as [|row rows IH]; intros idx r;
    cbn [row_updates]; [done|].
  by rewrite IH, row_update_where.
Qed.

Lemma split_last_match {A} (p : A -> bool) (l : list A) :
  existsb p l = true ->
  exists pre x post,
    l = pre ++ x :: post /\ p x = true /\ Forall (fun y => p y = false) post.
Proof.
  induction l as [|y l IH]; cbn; [discriminate|].
  destruct (existsb p l) eqn:E.
  - intros _. destruct (IH eq_refl) as (pre & x & post & -> & Hx & Hpost).
    by exists (y :: pre), x, post.
  - rewrite orb_false_r. intros Hy. exists [], y, l. split; [done|].
    split; [done|]. apply Forall_forall. intros z Hz.
    destruct (p z) eqn:Ez; [|done].
    assert (existsb p l = true); [|congruence].
    apply existsb_exists. exists z. split; [by apply list_elem_of_In | done].
Qed.

(** The rows of a table that a run produced are fixed points of the
    updates of the same file. *)
Lemma row_updates_fixed (gdf : list feature) (t : table) (r : db_row) :
  r ∈ upsert_all sh float_of_str county_name 0 gdf t ->
  row_updates sh float_of_str county_name 0 gdf r = r.
Proof.
  intros Hr.
  destruct (existsb (fun row => where_uid (row_uid row) r) gdf) eqn:E.
  2:{ apply row_updates_none, Forall_forall. intros row Hrow.
      destruct (where_uid (row_uid row) r) eqn:Ew; [|done].
      assert (existsb (fun row => where_uid (row_uid row) r) gdf = true);
        [|congruence].
      apply existsb_exists. exists row. split; [by apply list_elem_of_In | done]. }
  apply split_last_match in E as (pre & last & post & -> & Hlast & Hpost).
  pose proof Hlast as Hcell.
  apply where_uid_cell in Hcell as (u & Hu & Hcell).
  assert (where_uid (PStr u) r = true) as Hur by (by rewrite <- Hu).
  assert (Forall (fun row => row_uid row <> PStr u) post) as Hpost'.
  { eapply Forall_impl; [exact Hpost|]. intros row Hrow Heq. cbv beta in *.
    rewrite Heq in Hrow. congruence. }
  destruct (upsert_all_stores_last sh float_of_str county_name u pre last post t
              Hu Hpost') as [_ Hstores].
  cbn zeta in Hstores. rewrite Forall_forall in Hstores.
  assert (stores (update_set
                    (row_fields float_of_str county_name (length pre) last)
                    (geometry_columns sh last)) r) as Hst.
  { apply Hstores. unfold rows_of. apply list_elem_of_In, filter_In.
    split; [by apply list_elem_of_In | done]. }
  rewrite row_updates_app. cbn [row_updates Nat.add].
  assert (row_update sh float_of_str county_name (length pre) last
            (row_updates sh float_of_str county_name 0 pre r) = r) as ->.
  { unfold row_update. rewrite row_updates_where, Hlast.
    destruct (row_updates_shape 0 pre r) as [->|(set & Hk & ->)].
    - by apply update_fixed.
    - rewrite update_update; [by apply update_fixed|].
      by rewrite Hk, update_set_columns by apply geometry_columns_keys. }
  by apply row_updates_none.
Qed.

Lemma rows_of_uid (u : string) (t : table) :
  Forall (fun r : db_row =>
            r !! "global_parcel_uid"%string = Some (CVal (PStr u)))
    (rows_of u t).
Proof.
  apply Forall_forall. intros r Hr.
  apply list_elem_of_In, filter_In in Hr as [_ Hr].
  apply where_uid_cell in Hr as (u' & Hu' & Hr). congruence.
Qed.

Lemma upsert_all_present (u : string) (idx : nat) (rows : list feature)
    (row : feature) (t : table) :
  row ∈ rows -> row_uid row = PStr u ->
  existsb (where_uid (PStr u))
    (upsert_all sh float_of_str county_name idx rows t) = true.
Proof.
  intros Hin Hu. apply existsb_rows_of.
  apply list_elem_of_split in Hin as (pre & post & ->).
  rewrite upsert_all_app. cbn [upsert_all].
  destruct (upsert_self_stores sh float_of_str county_name u (idx + length pre)
              row (upsert_all sh float_of_str county_name idx pre t) Hu)
    as [Hne _].
  assert ("global_parcel_uid"%string ∉ update_columns) as Hk
    by (apply (bool_decide_unpack _); by vm_compute).
  apply (upsert_all_keeps_column sh float_of_str county_name u
           "global_parcel_uid" (Some (CVal (PStr u))) _ _ _ Hk Hne).
  apply rows_of_uid.
Qed.

End Idempotence.

(** X14.  Importing a file twice.  When no database call raises and every
    feature carries a string identifier, a second run over the same file
    leaves every stored row exactly as the first run left it: every
    feature finds its row, and the UPDATE of the last feature with an
    identifier writes the values the row already holds.  (The timestamp
    [updated_at], which an UPDATE sets to the current time, is not part
    of a stored row here.) *)
Theorem second_import_changes_nothing (sh : Shapely)
    (float_of_str : string -> result pyfloat) (county_name : pyval)
    (gdf : list feature) (t : table) :
  Forall (fun row => exists u, row_uid row = PStr u) gdf ->
  let once := committed (conn (update_parcel_data sh float_of_str reliable
                                 county_name gdf t)) in
  committed (conn (update_parcel_data sh float_of_str reliable county_name
                     gdf once)) = once.
Proof.
  intros Hstr. cbn zeta. rewrite !reliable_run_upserts.
  rewrite upsert_all_updates.
  - rewrite <- (list_fmap_id (upsert_all _ _ _ 0 gdf t)) at 2.
    apply list_fmap_ext. intros i r Hr. cbn [id].
    apply (row_updates_fixed sh float_of_str county_name gdf t).
    by eapply list_elem_of_lookup_2.
  - apply Forall_forall. intros row Hrow.
    rewrite Forall_forall in Hstr. destruct (Hstr row Hrow) as [u Hu].
    rewrite Hu. by eapply upsert_all_present.
Qed.

Lemma second_import_changes_nothing_witness :
  Forall (fun row => exists u, row_uid row = PStr u)
    [Examples.first_feature; Examples.second_feature]
  /\ committed (conn (update_parcel_data Examples.shapely_table
                        Examples.float_table reliable PNone
                        [Examples.first_feature; Examples.second_feature]
                        (committed (conn Examples.run_duplicate))))
     = committed (conn Examples.run_duplicate).
Proof.
  assert (Forall (fun row => exists u, row_uid row = PStr u)
            [Examples.first_feature; Examples.second_feature]) as H.
  { repeat constructor; by eexists. }
  split; [exact H|].
  exact (second_import_changes_nothing Examples.shapely_table
           Examples.float_table PNone
           [Examples.first_feature; Examples.second_feature] [] H).
Defined.

(* ================================================================== *)
(** * Properties of the JSON cleaning *)
(* ================================================================== *)

Section Cleaning.

Lemma mjoin_cons {A} (x : list A) (l : list (list A)) :
  mjoin (x :: l) = x ++ mjoin l.
Proof. reflexivity. Qed.

Lemma scrub_clean (v : pyval) : cleaned_away (scrub v) = false.
Proof.
  unfold scrub. destruct (cleaned_away v) eqn:E; [done | exact E].
Qed.

Lemma clean_value_scalar (v : pyval) :
  clean_value (JScalar v) = JScalar (scrub v).
Proof.
  unfold scrub. destruct v as [|s|x|z]; cbn [clean_value cleaned_away]; try done.
  - by case_bool_decide.
  - by destruct (isnan x).
Qed.

Lemma clean_value_skeleton (value : json) :
  skeleton (clean_value value) = skeleton value.
Proof.
  induction value as [v|items IH|items IH] using json_induction.
  - by rewrite clean_value_scalar.
  - cbn [clean_value skeleton]. f_equal. rewrite <- list_fmap_compose.
    apply Forall_fmap_ext_1. eapply Forall_impl; [exact IH|].
    intros [k v] H. cbn in *. by rewrite H.
  - cbn [clean_value skeleton]. f_equal. rewrite <- list_fmap_compose.
    by apply Forall_fmap_ext_1.
Qed.

Lemma clean_value_scalars (value : json) :
  scalars (clean_value value) = scrub <$> scalars value.
Proof.
  induction value as [v|items IH|items IH] using json_induction.
  - by rewrite clean_value_scalar.
  - cbn [clean_value scalars].
    induction IH as [|[k v] items Hv _ IHitems]; [done|].
    rewrite !fmap_cons, !mjoin_cons. cbn [fst snd] in *.
    by rewrite fmap_app, Hv, IHitems.
  - cbn [clean_value scalars].
    induction IH as [|v items Hv _ IHitems]; [done|].
    rewrite !fmap_cons, !mjoin_cons.
    by rewrite fmap_app, Hv, IHitems.
Qed.

Lemma clean_value_fixed (value : json) :
  Forall (fun v => cleaned_away v = false) (scalars value) ->
  clean_value value = value.
Proof.
  induction value as [v|items IH|items IH] using json_induction.
  - intros H. apply Forall_cons in H as [H _].
    rewrite clean_value_scalar. unfold scrub. by rewrite H.
  - cbn [clean_value scalars]. intros H. f_equal.
    induction IH as [|[k v] items Hv _ IHitems]; [done|].
    rewrite fmap_cons, mjoin_cons in H. cbn [fst snd] in *.
    apply Forall_app in H as [H1 H2].
    rewrite fmap_cons. cbn [fst snd]. by rewrite Hv, IHitems.
  - cbn [clean_value scalars]. intros H. f_equal.
    induction IH as [|v items Hv _ IHitems]; [done|].
    rewrite fmap_cons, mjoin_cons in H.
    apply Forall_app in H as [H1 H2].
    rewrite fmap_cons. by rewrite Hv, IHitems.
Qed.

End Cleaning.

(** X15.  [_clean_properties_for_json] keeps the shape of its argument
    (the same dicts with the same keys in the same order, lists of the
    same length) and replaces exactly the scalars it is written for: a
    NaN float, and a string that is empty or reads [nan] or [null] in any
    mix of upper and lower case, by [None]; every other scalar is kept. *)
Theorem clean_properties_scrubs_scalars (properties_dict : json) :
  skeleton (_clean_properties_for_json properties_dict) = skeleton properties_dict
  /\ scalars (_clean_properties_for_json properties_dict)
     = scrub <$> scalars properties_dict
  /\ Forall (fun v => cleaned_away v = false)
       (scalars (_clean_properties_for_json properties_dict)).
Proof.
  unfold _clean_properties_for_json.
  split; [apply clean_value_skeleton|].
  split; [apply clean_value_scalars|].
  rewrite clean_value_scalars. apply Forall_fmap, Forall_forall.
  intros v _. apply scrub_clean.
Qed.

(** X16.  Cleaning is idempotent: a cleaned value has nothing left to
    clean, at any depth. *)
Theorem clean_properties_idempotent (properties_dict : json) :
  _clean_properties_for_json (_clean_properties_for_json properties_dict)
  = _clean_properties_for_json properties_dict.
Proof.
  unfold _clean_properties_for_json. apply clean_value_fixed.
  rewrite clean_value_scalars. apply Forall_fmap, Forall_forall.
  intros v _. apply scrub_clean.
Qed.

(* ================================================================== *)
(** * The statistics after a run *)
(* ================================================================== *)

Section Statistics.

Lemma flagged_step (uid : pyval) (t t' : table) :
  table_step uid t t' -> flagged t -> flagged t'.
Proof.
  unfold flagged.
  intros [t0|set t0 _ [b Hb]|values t0 _ _ [b Hb]] Ht.
  - done.
  - unfold sql_update. apply Forall_fmap. eapply Forall_impl; [exact Ht|].
    intros r Hr. unfold compose. destruct (where_uid uid r); [|done].
    exists b. revert Hb. unfold has_spatial_data.
    destruct ((list_to_map set : db_row) !! "has_spatial_data"%string)
      as [c|] eqn:E; [|done].
    by rewrite (lookup_union_Some_l _ _ _ _ E).
  - unfold sql_insert. apply Forall_app. split; [done|].
    constructor; [by exists b | constructor].
Qed.

Lemma count_flag_cons (v : option bool) (r : db_row) (t : table) :
  count_flag v (r :: t)
  = (if bool_decide (has_spatial_data r = v) then 1 else 0) + count_flag v t.
Proof.
  unfold count_flag. cbn [List.filter].
  by destruct (bool_decide (has_spatial_data r = v)).
Qed.

Lemma count_flag_total (t : table) :
  count_flag (Some true) t + count_flag (Some false) t + count_flag None t
  = length t.
Proof.
  induction t as [|r t IH]; [done|].
  rewrite !count_flag_cons. cbn [length].
  destruct (has_spatial_data r) as [[]|];
    repeat case_bool_decide; try discriminate; try congruence; lia.
Qed.

Lemma flagged_no_null (t : table) : flagged t -> count_flag None t = 0.
Proof.
  induction 1 as [|r t [b Hb] _ IH]; [done|].
  rewrite count_flag_cons, Hb, IH. by case_bool_decide.
Qed.

(** On a table without NULL flags the loop over the groups finds both
    counts, in whatever order the groups arrive. *)
Lemma stats_of_flagged (fetchall : table -> list (option bool * nat))
    (t : table) :
  flagged t ->
  fetchall t ≡ₚ spatial_groups t ->
  let s := get_database_stats fetchall t in
  spatial_parcels s = count_flag (Some true) t
  /\ non_spatial_parcels s = count_flag (Some false) t
  /\ spatial_parcels s + non_spatial_parcels s = total_parcels s.
Proof.
  intros Hflag Hperm. cbn zeta.
  pose proof (count_flag_total t) as Htotal.
  rewrite (flagged_no_null t Hflag) in Htotal.
  unfold get_database_stats, count_all. cbn zeta.
  cbn [total_parcels spatial_parcels non_spatial_parcels].
  revert Hperm. unfold spatial_groups. cbn [fmap list_fmap].
  rewrite (flagged_no_null t Hflag).
  destruct (count_flag (Some true) t) as [|a],
           (count_flag (Some false) t) as [|b];
    cbn [List.filter Nat.ltb Nat.leb snd]; intros Hperm.
  - apply Permutation_nil_r in Hperm. rewrite Hperm. cbn. lia.
  - apply Permutation_singleton_r in Hperm. rewrite Hperm. cbn. lia.
  - apply Permutation_singleton_r in Hperm. rewrite Hperm. cbn. lia.
  - symmetry in Hperm. apply Permutation_length_2_inv in Hperm as [-> | ->];
      cbn; lia.
Qed.

Lemma Permutation_three {A} (a b c : A) (l : list A) :
  [a; b; c] ≡ₚ l ->
  l = [a; b; c] \/ l = [a; c; b] \/ l = [b; a; c]
  \/ l = [b; c; a] \/ l = [c; a; b] \/ l = [c; b; a].
Proof.
  intros H. apply Permutation_cons_inv_l in H as (k1 & k2 & -> & H).
  apply Permutation_length_2_inv in H as [H|H];
    destruct k1 as [|x [|y [|z k1]]]; simplify_eq/=; auto 10.
Qed.

End Statistics.

(** X17.  The statistics add up after a run.  Whatever call into the
    database raises, when every row of the table had [has_spatial_data]
    set before the run, [get_database_stats] on the table after the run
    reports the number of spatial and of non-spatial rows, in whatever
    order the server returns the two groups, and they sum to the total:
    every statement of the run sets the flag to TRUE or FALSE. *)
Theorem stats_add_up_after_run (sh : Shapely)
    (float_of_str : string -> result pyfloat) (db : Database)
    (county_name : pyval) (gdf : list feature) (t : table)
    (fetchall : table -> list (option bool * nat)) :
  flagged t ->
  let t' := committed (conn (update_parcel_data sh float_of_str db county_name
                               gdf t)) in
  fetchall t' ≡ₚ spatial_groups t' ->
  let s := get_database_stats fetchall t' in
  spatial_parcels s = count_flag (Some true) t'
  /\ non_spatial_parcels s = count_flag (Some false) t'
  /\ spatial_parcels s + non_spatial_parcels s = total_parcels s.
Proof.
  intros Hflag t' Hperm. apply stats_of_flagged; [|done].
  apply (run_tables sh float_of_str db county_name flagged); [|done].
  intros uid t1 t2. apply flagged_step.
Qed.

Lemma stats_add_up_after_run_witness :
  flagged []
  /\ spatial_groups (committed (conn Examples.run_duplicate))
     ≡ₚ spatial_groups (committed (conn Examples.run_duplicate))
  /\ let s := get_database_stats spatial_groups
                (committed (conn Examples.run_duplicate)) in
     spatial_parcels s + non_spatial_parcels s = total_parcels s.
Proof.
  assert (flagged []) as H1 by constructor.
  assert (spatial_groups (committed (conn Examples.run_duplicate))
          ≡ₚ spatial_groups (committed (conn Examples.run_duplicate))) as H2
    by reflexivity.
  split; [exact H1|]. split; [exact H2|].
  exact (proj2 (proj2 (stats_add_up_after_run Examples.shapely_table
                         Examples.float_table reliable PNone
                         [Examples.first_feature; Examples.second_feature] []
                         spatial_groups H1 H2))).
Defined.

(** X18.  A NULL flag breaks the statistics: on a table with a row whose
    [has_spatial_data] is NULL, the rows with FALSE and the rows with
    NULL are two groups, the loop keeps the count of only one of them,
    and the two reported counts sum to less than the total. *)
Theorem stats_miss_rows_with_null_flag
    (fetchall : table -> list (option bool * nat)) (t : table) :
  0 < count_flag None t ->
  0 < count_flag (Some false) t ->
  fetchall t ≡ₚ spatial_groups t ->
  let s := get_database_stats fetchall t in
  spatial_parcels s + non_spatial_parcels s < total_parcels s.
Proof.
  intros Hnull Hfalse Hperm. cbn zeta.
  pose proof (count_flag_total t) as Htotal.
  unfold get_database_stats, count_all. cbn zeta.
  cbn [total_parcels spatial_parcels non_spatial_parcels].
  revert Hperm. unfold spatial_groups. cbn [fmap list_fmap].
  destruct (count_flag (Some true) t) as [|a],
           (count_flag (Some false) t) as [|b],
           (count_flag None t) as [|c]; try lia;
    cbn [List.filter Nat.ltb Nat.leb snd]; intros Hperm.
  - symmetry in Hperm. apply Permutation_length_2_inv in Hperm as [-> | ->];
      cbn; lia.
  - symmetry in Hperm.
    apply Permutation_three in Hperm
      as [-> | [-> | [-> | [-> | [-> | ->]]]]]; cbn; lia.
Qed.

Lemma stats_miss_rows_with_null_flag_witness :
  let t : table := [ {[ "has_spatial_data"%string := CBool false ]}; ∅ ] in
  0 < count_flag None t
  /\ 0 < count_flag (Some false) t
  /\ spatial_groups t ≡ₚ spatial_groups t
  /\ let s := get_database_stats spatial_groups t in
     spatial_parcels s + non_spatial_parcels s < total_parcels s.
Proof.
  cbn zeta.
  set (t := [ {[ "has_spatial_data"%string := CBool false ]}; ∅ ] : table).
  assert (0 < count_flag None t) as H1 by (vm_compute; lia).
  assert (0 < count_flag (Some false) t) as H2 by (vm_compute; lia).
  assert (spatial_groups t ≡ₚ spatial_groups t) as H3 by reflexivity.
  split; [exact H1|]. split; [exact H2|]. split; [exact H3|].
  exact (stats_miss_rows_with_null_flag spatial_groups t H1 H2 H3).
Defined.
